(** * The meeting-ingestion pipeline of minutes-backend

    A shallow embedding of the three versions of the [POST /transcribe]
    handler (src/src/transcriptionRoutes.js, two versions, and
    src/unnamed/part_000) and the properties of the ingestion pipeline that
    hold, or fail, on them.

    JavaScript values are an inductive type, numbers are binary64 floats
    (the kernel's [PrimFloat]); the handler runs in a small state-and-exception
    monad over a world made of the temporary file store and the chronological
    trace of the calls made to the outside (speech-to-text, chat completions,
    datastore inserts).  What the outside answers is a parameter ([Env]); the
    built-ins of the JavaScript runtime the handler calls ([JSON.parse],
    [String], [Math.round], the text of numeric strings, the error objects the
    engine throws) are a parameter too ([Runtime]).  Console output is not
    modelled. *)

From Stdlib Require Import PrimFloat Ascii String NArith.
From stdpp Require Import base gmap strings list.

Set Warnings "-register-all,-inexact-float".

Open Scope string_scope.

(** ** JavaScript values *)

Module Js.

Inductive value : Type :=
| VUndef
| VNull
| VBool (b : bool)
| VNum (x : float)
| VStr (s : string)
| VArr (elems : list value)
| VObj (fields : list (string * value)).

(** The errors the engine itself raises in the handler. *)
Inductive RuntimeError : Type :=
| ReadOfNullish (v : value) (key : string)   (* TypeError: property read on null/undefined *)
| NotAFunction (callee : string)             (* TypeError: x.f is not a function *)
| NotDefined (ident : string)                (* ReferenceError: ident is not defined *)
| JsonSyntax (text : string)                 (* SyntaxError of JSON.parse *)
| NoSuchFile (path : string).                (* ENOENT of fs.readFileSync *)

(** Built-ins of the runtime, taken as given. [JSON_parse] answers [None] when
    [JSON.parse] throws. *)
Record Runtime : Type := {
  JSON_parse : string → option value;
  String_of : value → string;
  StringToNumber : string → float;
  Math_round : float → float;
  error_value : RuntimeError → value
}.

(** [n] as a JavaScript number (exact below 2^53). *)
Fixpoint js_nat (n : nat) : float :=
  match n with
  | O => 0%float
  | S k => (js_nat k + 1)%float
  end.

(** ToBoolean. *)
Definition truthy (v : value) : bool :=
  match v with
  | VUndef | VNull => false
  | VBool b => b
  | VNum x => negb (x =? 0)%float && (x =? x)%float
  | VStr s => negb (String.eqb s "")
  | VArr _ | VObj _ => true
  end.

(** [v === null || v === undefined]. *)
Definition nullish (v : value) : bool :=
  match v with
  | VUndef | VNull => true
  | _ => false
  end.

(** [a || b] and [a ?? b]. *)
Definition js_or (a b : value) : value := if truthy a then a else b.
Definition js_coalesce (a b : value) : value := if nullish a then b else a.

(** [typeof v === "number"] and [Array.isArray(v)]. *)
Definition typeof_number (v : value) : bool :=
  match v with VNum _ => true | _ => false end.
Definition isArray (v : value) : bool :=
  match v with VArr _ => true | _ => false end.

Fixpoint assoc (k : string) (fields : list (string * value)) : value :=
  match fields with
  | [] => VUndef
  | (k', v) :: rest => if String.eqb k k' then v else assoc k rest
  end.

(** [v.k] for a value that is not null or undefined, [k] one of the identifier
    names the handler reads.  Strings and arrays answer only [length] (of a
    string: its number of bytes, which is zero exactly when its JavaScript
    length is). *)
Definition prop (v : value) (k : string) : value :=
  match v with
  | VObj fields => assoc k fields
  | VArr elems => if String.eqb k "length" then VNum (js_nat (length elems)) else VUndef
  | VStr s => if String.eqb k "length" then VNum (js_nat (String.length s)) else VUndef
  | _ => VUndef
  end.

(** [v?.k]. *)
Definition opt_prop (v : value) (k : string) : value :=
  if nullish v then VUndef else prop v k.

(** ToNumber.  An array converts through its text: the empty array and
    [[null]] to 0, a one-element array as its element's text, a longer one
    (its text has a comma) to NaN; an object's text is not numeric. *)
Fixpoint ToNumber (rt : Runtime) (v : value) : float :=
  match v with
  | VUndef => nan
  | VNull => 0%float
  | VBool b => if b then 1%float else 0%float
  | VNum x => x
  | VStr s => StringToNumber rt s
  | VObj _ => nan
  | VArr [] => 0%float
  | VArr [e] =>
      match e with
      | VUndef | VNull => 0%float
      | VBool _ | VObj _ => nan
      | VNum x => if (x =? 0)%float then 0%float else x
      | VStr _ | VArr _ => ToNumber rt e
      end
  | VArr (_ :: _ :: _) => nan
  end.

(** [a < b], [a <= b] when one side is a number (the numeric comparison). *)
Definition js_lt (rt : Runtime) (a b : value) : bool := (ToNumber rt a <? ToNumber rt b)%float.
Definition js_le (rt : Runtime) (a b : value) : bool := (ToNumber rt a <=? ToNumber rt b)%float.

(** Property keys: a value used between brackets names a property by its
    text.  A number is kept as a number (its text names an element exactly
    when it equals that element's position), any other text as a string. *)
Inductive PropertyKey : Type :=
| KeyNum (x : float)
| KeyStr (s : string).

Fixpoint ToPropertyKey (v : value) : PropertyKey :=
  match v with
  | VUndef => KeyStr "undefined"
  | VNull => KeyStr "null"
  | VBool b => KeyStr (if b then "true" else "false")
  | VNum x => KeyNum x
  | VStr s => KeyStr s
  | VObj _ => KeyStr "[object Object]"
  | VArr [] => KeyStr ""
  | VArr [e] =>
      match e with
      | VUndef | VNull => KeyStr ""
      | _ => ToPropertyKey e
      end
  | VArr (_ :: _ :: _) => KeyStr ","
  end.

Fixpoint elem_at_number (x : float) (i : float) (elems : list value) : value :=
  match elems with
  | [] => VUndef
  | e :: rest => if (i =? x)%float then e else elem_at_number x (i + 1)%float rest
  end.

Definition digit_of (c : ascii) : option N :=
  let n := N_of_ascii c in
  if ((48 <=? n) && (n <=? 57))%N then Some (n - 48)%N else None.

Fixpoint digits_of (s : string) (acc : N) : option N :=
  match s with
  | EmptyString => Some acc
  | String c rest =>
      match digit_of c with
      | Some d => digits_of rest (10 * acc + d)%N
      | None => None
      end
  end.

(** The array index a string names: canonical decimal digits only. *)
Definition index_of_string (s : string) : option N :=
  match s with
  | EmptyString => None
  | String c rest =>
      if Ascii.eqb c "0"%char
      then (if String.eqb rest "" then Some 0%N else None)
      else digits_of s 0%N
  end.

(** [arr[k]] for an array [arr]. *)
Definition array_get (elems : list value) (k : value) : value :=
  match ToPropertyKey k with
  | KeyNum x => elem_at_number x 0%float elems
  | KeyStr s =>
      if String.eqb s "length" then VNum (js_nat (length elems))
      else match index_of_string s with
           | Some n =>
               if (n <? N.of_nat (length elems))%N
               then nth (N.to_nat n) elems VUndef
               else VUndef
           | None => VUndef
           end
  end.

(** SameValueZero, the key equality of [Map].  Objects and arrays are equal
    by identity only; the handler looks a [Map] up by fresh numbers, which no
    object is. *)
Definition same_value_zero (a b : value) : bool :=
  match a, b with
  | VUndef, VUndef | VNull, VNull => true
  | VBool x, VBool y => Bool.eqb x y
  | VNum x, VNum y => (x =? y)%float || (negb (x =? x)%float && negb (y =? y)%float)
  | VStr x, VStr y => String.eqb x y
  | _, _ => false
  end.

(** A [Map], most recent [set] first. *)
Definition JsMap : Type := list (value * value).

Definition map_set (k v : value) (m : JsMap) : JsMap := (k, v) :: m.

Fixpoint map_get (m : JsMap) (k : value) : value :=
  match m with
  | [] => VUndef
  | (k', v) :: rest => if same_value_zero k' k then v else map_get rest k
  end.

(** [{...o, k: v}]: the key keeps its place when [o] has it. *)
Fixpoint set_field (k : string) (v : value) (fields : list (string * value))
  : list (string * value) :=
  match fields with
  | [] => [(k, v)]
  | (k', v') :: rest =>
      if String.eqb k k' then (k', v) :: rest else (k', v') :: set_field k v rest
  end.

(** [new Error(msg)], as far as the handler reads it. *)
Definition mk_error (msg : string) : value := VObj [("message", VStr msg)].

(** ** Pure evaluation: a result or a thrown value *)

Inductive Outcome (A : Type) : Type :=
| Ok (a : A)
| Thrown (e : value).
Arguments Ok {A} a.
Arguments Thrown {A} e.

#[export] Instance Outcome_ret : MRet Outcome := λ A a, Ok a.
#[export] Instance Outcome_bind : MBind Outcome := λ A B f m,
  match m with
  | Ok a => f a
  | Thrown e => Thrown e
  end.

(** [v.k], which throws on null and undefined. *)
Definition get (rt : Runtime) (v : value) (k : string) : Outcome value :=
  if nullish v then Thrown (error_value rt (ReadOfNullish v k)) else Ok (prop v k).

(** [v[0]]. *)
Definition index0 (rt : Runtime) (v : value) : Outcome value :=
  match v with
  | VUndef | VNull => Thrown (error_value rt (ReadOfNullish v "0"))
  | VArr elems => Ok (nth 0 elems VUndef)
  | VStr (String c _) => Ok (VStr (String c EmptyString))
  | VObj fields => Ok (assoc "0" fields)
  | _ => Ok VUndef
  end.

(** [JSON.parse(v)]: the argument is read as text. *)
Definition json_parse (rt : Runtime) (v : value) : Outcome value :=
  let text := match v with VStr s => s | _ => String_of rt v end in
  match JSON_parse rt text with
  | Some j => Ok j
  | None => Thrown (error_value rt (JsonSyntax text))
  end.

(** [arr.map((x, i) => f(i, x))]. *)
Fixpoint map_indexed {A : Type} (f : nat → value → Outcome A) (i : nat) (l : list value)
  : Outcome (list A) :=
  match l with
  | [] => Ok []
  | x :: rest =>
      y ← f i x;
      ys ← map_indexed f (S i) rest;
      Ok (y :: ys)
  end.

(** [arr.forEach(step)] inside a [try] whose [catch] only logs: the state
    the entries before the first throwing one have built is what remains. *)
Fixpoint forEach_caught {S : Type} (step : value → S → Outcome S) (l : list value) (acc : S) : S :=
  match l with
  | [] => acc
  | x :: rest =>
      match step x acc with
      | Ok acc' => forEach_caught step rest acc'
      | Thrown _ => acc
      end
  end.

End Js.

Import Js.

(** ** The world of a request *)

(** The three chat-completion calls of the pipeline. *)
Inductive Stage : Type :=
| OverallTone
| SegmentTone
| SummaryTasks.

(** A call made to the outside. *)
Inductive Event : Type :=
| EvTranscribe (model : string)                (* groq.audio.transcriptions.create *)
| EvChat (stage : Stage) (model : string)      (* groq.chat.completions.create *)
| EvInsert (table : string) (rows : value).    (* supabase.from(table).insert(rows) *)

(** What an awaited call gives back. *)
Inductive Answer : Type :=
| Returns (v : value)
| Throws (e : value).

(** The outside: the answer of each call, and the clock. *)
Record Env : Type := {
  transcription_answer : Answer;
  chat_answer : Stage → Answer;
  insert_answer : string → value → Answer;
  now_iso : string
}.

(** The paths that exist in the temporary store, and the calls made so far,
    oldest first. *)
Record World : Type := {
  files : gset string;
  trace : list Event
}.

Definition M (A : Type) : Type := World → Outcome A * World.

#[export] Instance M_ret : MRet M := λ A a w, (Ok a, w).
#[export] Instance M_bind : MBind M := λ A B f m w,
  match m w with
  | (Ok a, w') => f a w'
  | (Thrown e, w') => (Thrown e, w')
  end.

Definition throw {A : Type} (e : value) : M A := λ w, (Thrown e, w).

Definition lift {A : Type} (o : Outcome A) : M A := λ w, (o, w).

(** [try { body } catch (err) { handler(err) }]. *)
Definition try_catch {A : Type} (body : M A) (handler : value → M A) : M A := λ w,
  match body w with
  | (Ok a, w') => (Ok a, w')
  | (Thrown e, w') => handler e w'
  end.

Definition emit (ev : Event) : M unit := λ w,
  (Ok (), {| files := files w; trace := trace w ++ [ev] |}).

Definition await (a : Answer) : M value := λ w,
  match a with
  | Returns v => (Ok v, w)
  | Throws e => (Thrown e, w)
  end.

(** [fs.readFileSync(p)]: the bytes are passed on unread. *)
Definition readFileSync (rt : Runtime) (p : string) : M unit := λ w,
  if decide (p ∈ files w) then (Ok (), w)
  else (Thrown (error_value rt (NoSuchFile p)), w).

(** [fs.unlink(p, () => {})]: the removal the handler asks for; its own
    failure is dropped by the empty callback. *)
Definition unlink (p : string) : M unit := λ w,
  (Ok (), {| files := files w ∖ {[ p ]}; trace := trace w |}).

Definition groq_transcribe (env : Env) (model : string) : M value :=
  _ ← emit (EvTranscribe model); await (transcription_answer env).

Definition groq_chat (env : Env) (stage : Stage) (model : string) : M value :=
  _ ← emit (EvChat stage model); await (chat_answer env stage).

Definition supabase_insert (env : Env) (table : string) (rows : value) : M value :=
  _ ← emit (EvInsert table rows); await (insert_answer env table rows).

(** ** Requests and responses *)

Record Upload : Type := {
  path : string;
  originalname : string;
  mimetype : string
}.

Record Request : Type := {
  file : option Upload;      (* req.file *)
  body : value               (* req.body *)
}.

Record Response : Type := {
  status : nat;
  json : value
}.

(** [res.json(v)] and [res.status(n).json(v)]. *)
Definition res_json (v : value) : Response := {| status := 200; json := v |}.
Definition res_status_json (n : nat) (v : value) : Response := {| status := n; json := v |}.

(** [p.replace(/\\/g, "/")]. *)
Fixpoint replace_backslashes (p : string) : string :=
  match p with
  | EmptyString => EmptyString
  | String c rest =>
      String (if Ascii.eqb c (ascii_of_nat 92) then ascii_of_nat 47 else c)
             (replace_backslashes rest)
  end.

(** ** What the three versions share *)

(** [transcription.text || ""]. *)
Definition transcriptText (transcription : value) : value :=
  js_or (prop transcription "text") (VStr "").

(** [Array.isArray(transcription.segments) ? transcription.segments : []]. *)
Definition segments_of (transcription : value) : list value :=
  match prop transcription "segments" with
  | VArr l => l
  | _ => []
  end.

(** The overall tone: [moodScore], [dominantEmotion], [emotionBreakdown]. *)
Record Tone : Type := {
  moodScore : value;
  dominantEmotion : value;
  emotionBreakdown : value
}.

Definition null_tone : Tone :=
  {| moodScore := VNull; dominantEmotion := VNull; emotionBreakdown := VNull |}.

(** [completion.choices[0]?.message?.content || "{}"]. *)
Definition content_of (rt : Runtime) (completion : value) : Outcome value :=
  choices ← get rt completion "choices";
  first ← index0 rt choices;
  Ok (js_or (opt_prop (opt_prop first "message") "content") (VStr "{}")).

(** The body of the overall-tone [try]: the three assignments happen only
    once the parsed value has let its first field be read. *)
Definition parse_overall (rt : Runtime) (completion : value) : Outcome Tone :=
  content ← content_of rt completion;
  parsed ← json_parse rt content;
  score ← get rt parsed "overallMoodScore";
  dominant ← get rt parsed "dominantEmotion";
  breakdown ← get rt parsed "emotionBreakdown";
  Ok {| moodScore := js_coalesce score VNull;
        dominantEmotion := js_coalesce dominant VNull;
        emotionBreakdown := js_coalesce breakdown VNull |}.

(** Stage 2, the same in the three versions but for the model: the call is
    awaited outside the [try], its answer parsed inside. *)
Definition overall_tone (rt : Runtime) (env : Env) (model : string) (transcriptText : value)
  : M Tone :=
  if js_lt rt (VNum 0) (prop transcriptText "length") then
    overall ← groq_chat env OverallTone model;
    match parse_overall rt overall with
    | Ok tone => mret tone
    | Thrown _ => mret null_tone
    end
  else mret null_tone.

(** [segments.map((seg, index) => ({ index, start: seg.start, end: seg.end, text: seg.text }))]. *)
Definition payload_entry (rt : Runtime) (index : nat) (seg : value) : Outcome value :=
  start ← get rt seg "start";
  end_ ← get rt seg "end";
  text ← get rt seg "text";
  Ok (VObj [("index", VNum (js_nat index)); ("start", start); ("end", end_); ("text", text)]).

Definition segmentPayload (rt : Runtime) (segments : list value) : Outcome (list value) :=
  map_indexed (payload_entry rt) 0 segments.

(** The [catch] of the handler. *)
Definition pipeline_error (rt : Runtime) (f : Upload) (err : value) : M Response :=
  _ ← (if negb (String.eqb (path f) "") then unlink (path f) else mret ());
  mret (res_status_json 500
          (VObj [("error", VStr "Failed to process meeting");
                 ("details", js_or (opt_prop err "message") (VStr (String_of rt err)))])).

Definition no_file : Response :=
  res_status_json 400 (VObj [("error", VStr "No audio file uploaded")]).

(** ** First version of src/src/transcriptionRoutes.js: tone, summary and tasks *)

Module VariantA.

(** [typeof s.score === "number" && s.score >= 0 && s.score <= 1 ? s.score : 0.5]. *)
Definition checked_score (rt : Runtime) (score : value) : value :=
  if typeof_number score && js_le rt (VNum 0) score && js_le rt score (VNum 1)
  then score
  else VNum 0.5.

(** The row pushed on [segmentEmotionsForDB] for an entry [s] of the
    analyzer's list. *)
Definition pushed_row (rt : Runtime) (payload : list value) (s : value) : value :=
  VObj [("segment_index", prop s "index");
        ("start", js_coalesce (opt_prop (array_get payload (prop s "index")) "start") VNull);
        ("end", js_coalesce (opt_prop (array_get payload (prop s "index")) "end") VNull);
        ("emotion", js_or (prop s "emotion") (VStr "neutral"));
        ("score", checked_score rt (prop s "score"))].

(** The callback of [segResults.forEach]: one [Map] entry and one row pushed
    per entry of the analyzer's list; reading [s.index] throws when [s] is
    null. *)
Definition collect_entry (rt : Runtime) (payload : list value) (s : value)
  (acc : JsMap * list value) : Outcome (JsMap * list value) :=
  index ← get rt s "index";
  Ok (map_set index
        (VObj [("emotion", js_or (prop s "emotion") (VStr "neutral"));
               ("score", checked_score rt (prop s "score"))])
        acc.1,
      (acc.2 ++ [pushed_row rt payload s])%list).

(** [Array.isArray(segJson.segments) ? segJson.segments : []], the list the
    analyzer answered. *)
Definition segResults (rt : Runtime) (segCompletion : value) : Outcome (list value) :=
  content ← content_of rt segCompletion;
  segJson ← json_parse rt content;
  found ← get rt segJson "segments";
  Ok (match found with VArr l => l | _ => [] end).

(** The [try] of stage 3: [segmentEmotionMap] and [segmentEmotionsForDB]
    as it leaves them. *)
Definition collect_segments (rt : Runtime) (payload : list value) (segCompletion : value)
  : JsMap * list value :=
  match segResults rt segCompletion with
  | Thrown _ => ([], [])
  | Ok entries => forEach_caught (collect_entry rt payload) entries ([], [])
  end.

Definition segment_tone (rt : Runtime) (env : Env) (segments : list value)
  : M (JsMap * list value) :=
  if bool_decide (0 < length segments) then
    payload ← lift (segmentPayload rt segments);
    segCompletion ← groq_chat env SegmentTone "llama-3.1-8b-instant";
    mret (collect_segments rt payload segCompletion)
  else mret ([], []).

(** A row of [transcripts]. *)
Definition transcript_row (rt : Runtime) (meetingId : value) (segmentEmotionMap : JsMap)
  (index : nat) (seg : value) : Outcome value :=
  let emo := js_or (map_get segmentEmotionMap (VNum (js_nat index)))
                   (VObj [("emotion", VNull); ("score", VNull)]) in
  start ← get rt seg "start";
  end_ ← get rt seg "end";
  text ← get rt seg "text";
  Ok (VObj [("meeting_id", meetingId);
            ("start", VStr (String_of rt start));
            ("end", VStr (String_of rt end_));
            ("text", text);
            ("speaker", VNull);
            ("emotion", prop emo "emotion");
            ("emotion_score", prop emo "score")]).

(** A row of [emotions]. *)
Definition emotion_row (meetingId : value) (e : value) : value :=
  VObj [("meeting_id", meetingId);
        ("segment_index", prop e "segment_index");
        ("start", prop e "start");
        ("end", prop e "end");
        ("emotion", prop e "emotion");
        ("score", prop e "score")].

(** A row of [tasks]. *)
Definition task_row (rt : Runtime) (meetingId : value) (t : value) : Outcome value :=
  title ← get rt t "title";
  description ← get rt t "description";
  owner ← get rt t "owner";
  dueDate ← get rt t "dueDate";
  priority ← get rt t "priority";
  status ← get rt t "status";
  Ok (VObj [("meeting_id", meetingId);
            ("title", title);
            ("description", description);
            ("owner", owner);
            ("due_date", js_or dueDate (VStr ""));
            ("priority", priority);
            ("status", status);
            ("notion_sync_status", VNull)]).

Definition empty_summary : value :=
  VObj [("bullets", VArr []); ("decisions", VArr []); ("risks", VArr []);
        ("followUpQuestions", VArr [])].

(** What the [catch] around [JSON.parse(content)] assigns to [analysis]. *)
Definition empty_analysis : value :=
  VObj [("summary", empty_summary); ("tasks", VObj [("items", VArr [])])].

(** The row given to the [meetings] insert. *)
Definition meeting_row (rt : Runtime) (env : Env) (f : Upload) (transcription : value)
  (tone : Tone) : value :=
  let meetingTitle :=
    js_or (VStr (originalname f)) (VStr ("Uploaded meeting " ++ now_iso env)) in
  VObj [("title", meetingTitle);
        ("meeting_type", VStr "generic");
        ("duration",
         VNum (Math_round rt (ToNumber rt (js_or (prop transcription "duration") (VNum 0)))));
        ("mood_score", moodScore tone);
        ("dominant_emotion", dominantEmotion tone);
        ("emotion_breakdown", emotionBreakdown tone)].

(** Stages 4 to 6: the meeting row, then the transcript and emotion rows.
    Answers the meeting identifier. *)
Definition persist_meeting (rt : Runtime) (env : Env) (f : Upload) (transcription : value)
  (segments : list value) (tone : Tone) (segmentEmotionMap : JsMap)
  (segmentEmotionsForDB : list value) : M value :=
  inserted ← supabase_insert env "meetings" (meeting_row rt env f transcription tone);
  meetingRow ← lift (get rt inserted "data");
  meetingError ← lift (get rt inserted "error");
  if truthy meetingError then throw (mk_error "Failed to create meeting")
  else
    meetingId ← lift (get rt meetingRow "id");
    _ ← (if bool_decide (0 < length segments) then
           transcriptRows ← lift (map_indexed (transcript_row rt meetingId segmentEmotionMap)
                                    0 segments);
           answer ← supabase_insert env "transcripts" (VArr transcriptRows);
           _ ← lift (get rt answer "error");
           mret ()
         else mret ());
    _ ← (if bool_decide (0 < length segmentEmotionsForDB) then
           answer ← supabase_insert env "emotions"
                      (VArr (emotion_row meetingId <$> segmentEmotionsForDB));
           _ ← lift (get rt answer "error");
           mret ()
         else mret ());
    mret meetingId.

(** Stages 7 to 9: the summary and the tasks, extracted and written.
    Answers [summary] and [tasks]. *)
Definition summarise (rt : Runtime) (env : Env) (meetingId : value) : M (value * value) :=
  completion ← groq_chat env SummaryTasks "llama-3.1-70b-versatile";
  content ← lift (content_of rt completion);
  let analysis :=
    match json_parse rt content with
    | Ok parsed => parsed
    | Thrown _ => empty_analysis
    end in
  found ← lift (get rt analysis "summary");
  let summary := js_or found empty_summary in
  let tasks := js_or (opt_prop (prop analysis "tasks") "items") (VArr []) in
  answer ← supabase_insert env "summaries"
    (VObj [("meeting_id", meetingId);
           ("bullets", js_or (prop summary "bullets") (VArr []));
           ("decisions", js_or (prop summary "decisions") (VArr []));
           ("risks", js_or (prop summary "risks") (VArr []));
           ("follow_up_questions", js_or (prop summary "followUpQuestions") (VArr []))]);
  _ ← lift (get rt answer "error");
  _ ← (if truthy (prop tasks "length") then
         match tasks with
         | VArr items =>
             taskRows ← lift (map_indexed (λ _, task_row rt meetingId) 0 items);
             answer ← supabase_insert env "tasks" (VArr taskRows);
             _ ← lift (get rt answer "error");
             mret ()
         | _ => throw (error_value rt (NotAFunction "tasks.map"))
         end
       else mret ());
  mret (summary, tasks).

(** The [try] block of the handler, for a request with its file. *)
Definition pipeline (rt : Runtime) (env : Env) (req : Request) (f : Upload) : M Response :=
  let fixedPath := replace_backslashes (path f) in
  _ ← readFileSync rt fixedPath;
  transcription ← groq_transcribe env "whisper-large-v3-turbo";
  _ ← lift (get rt transcription "duration");
  let transcriptText := transcriptText transcription in
  let segments := segments_of transcription in
  tone ← overall_tone rt env "llama-3.1-70b-versatile" transcriptText;
  collected ← segment_tone rt env segments;
  meetingId ← persist_meeting rt env f transcription segments tone
                collected.1 collected.2;
  extracted ← summarise rt env meetingId;
  _ ← unlink fixedPath;
  mret (res_json
          (VObj [("meetingId", meetingId);
                 ("transcript", transcriptText);
                 ("segments", VArr segments);
                 ("words", prop transcription "words");
                 ("summary", extracted.1);
                 ("tasks", extracted.2);
                 ("emotion",
                  VObj [("moodScore", moodScore tone);
                        ("dominantEmotion", dominantEmotion tone);
                        ("emotionBreakdown", emotionBreakdown tone);
                        ("segmentEmotions", VArr collected.2)])])).

(** The handler of [POST /transcribe]. *)
Definition transcribe (rt : Runtime) (env : Env) (req : Request) : M Response :=
  match file req with
  | None => mret no_file
  | Some f => try_catch (pipeline rt env req f) (pipeline_error rt f)
  end.

End VariantA.

(** ** Second version of src/src/transcriptionRoutes.js: tone only, title from the request *)

Module VariantB.

(** The callback of [arr.forEach]. *)
Definition collect_entry (rt : Runtime) (payload : list value) (s : value)
  (acc : JsMap * list value) : Outcome (JsMap * list value) :=
  emotion ← get rt s "emotion";
  let cleanEmotion := js_or emotion (VStr "neutral") in
  found ← get rt s "score";
  let score := if typeof_number found then found else VNum 0.5 in
  index ← get rt s "index";
  Ok (map_set index (VObj [("emotion", cleanEmotion); ("score", score)]) acc.1,
      (acc.2 ++
       [VObj [("meeting_id", VNull);
              ("segment_index", index);
              ("start_time", js_coalesce (opt_prop (array_get payload index) "start") VNull);
              ("end_time", js_coalesce (opt_prop (array_get payload index) "end") VNull);
              ("emotion", cleanEmotion);
              ("score", score)]])%list).

(** The [try] of stage 3: [segmentEmotionMap] and [segmentEmotions] as it
    leaves them.  [parsed.segments || []] must be an array for [forEach] to
    be there. *)
Definition collect_segments (rt : Runtime) (payload : list value) (seg : value)
  : JsMap * list value :=
  match (content ← content_of rt seg;
         parsed ← json_parse rt content;
         get rt parsed "segments") with
  | Thrown _ => ([], [])
  | Ok found =>
      match js_or found (VArr []) with
      | VArr arr => forEach_caught (collect_entry rt payload) arr ([], [])
      | _ => ([], [])
      end
  end.

Definition segment_tone (rt : Runtime) (env : Env) (segments : list value)
  : M (JsMap * list value) :=
  if bool_decide (0 < length segments) then
    payload ← lift (segmentPayload rt segments);
    seg ← groq_chat env SegmentTone "llama-3.1-8b-instant";
    mret (collect_segments rt payload seg)
  else mret ([], []).

(** [analysis.moodScore != null ? Math.round(analysis.moodScore * 100) : null]. *)
Definition scaled_mood (rt : Runtime) (analysis : Tone) : value :=
  if negb (nullish (moodScore analysis))
  then VNum (Math_round rt (ToNumber rt (moodScore analysis) * 100)%float)
  else VNull.

(** The row given to the [meetings] insert. *)
Definition meeting_row (rt : Runtime) (title meeting_type : value) (transcription : value)
  (transcriptText : value) (analysis : Tone) : value :=
  VObj [("title", js_or title (VStr "Untitled Meeting"));
        ("meeting_type", js_or meeting_type (VStr "generic"));
        ("duration",
         if truthy (opt_prop transcription "duration")
         then VNum (Math_round rt (ToNumber rt (prop transcription "duration")))
         else VNum 0);
        ("mood_score", scaled_mood rt analysis);
        ("dominant_emotion", dominantEmotion analysis);
        ("emotion_breakdown", emotionBreakdown analysis);
        ("transcript", transcriptText);
        ("cloud_path", VNull)].

(** A row of [transcripts]. *)
Definition transcript_row (rt : Runtime) (meetingId : value) (segmentEmotionMap : JsMap)
  (i : nat) (seg : value) : Outcome value :=
  start ← get rt seg "start";
  end_ ← get rt seg "end";
  text ← get rt seg "text";
  Ok (VObj [("meeting_id", meetingId);
            ("start_time", VStr (String_of rt start));
            ("end_time", VStr (String_of rt end_));
            ("transcript_text", text);
            ("speaker", VStr "Unknown");
            ("emotion",
             js_or (opt_prop (map_get segmentEmotionMap (VNum (js_nat i))) "emotion") VNull);
            ("emotion_score",
             js_or (opt_prop (map_get segmentEmotionMap (VNum (js_nat i))) "score") VNull)]).

(** [{ ...row, meeting_id: meetingId }]. *)
Definition with_meeting_id (meetingId : value) (row : value) : value :=
  match row with
  | VObj fields => VObj (set_field "meeting_id" meetingId fields)
  | _ => VObj [("meeting_id", meetingId)]
  end.

(** Stages 5 to 7, once the meeting row exists. *)
Definition persist_dependents (rt : Runtime) (env : Env) (fixedPath : string)
  (meetingId : value) (segments : list value) (segmentEmotionMap : JsMap)
  (segmentEmotions : list value) : M unit :=
  _ ← (if bool_decide (0 < length segments) then
         rows ← lift (map_indexed (transcript_row rt meetingId segmentEmotionMap) 0 segments);
         _ ← supabase_insert env "transcripts" (VArr rows);
         mret ()
       else mret ());
  _ ← (if bool_decide (0 < length segmentEmotions) then
         _ ← supabase_insert env "emotion_segments"
               (VArr (with_meeting_id meetingId <$> segmentEmotions));
         mret ()
       else mret ());
  unlink fixedPath.

(** The [try] block of the handler, for a request with its file. *)
Definition pipeline (rt : Runtime) (env : Env) (req : Request) (f : Upload) : M Response :=
  let fixedPath := replace_backslashes (path f) in
  _ ← readFileSync rt fixedPath;
  transcription ← groq_transcribe env "whisper-large-v3-turbo";
  _ ← lift (get rt transcription "duration");
  let transcriptText := transcriptText transcription in
  let segments := segments_of transcription in
  analysis ← overall_tone rt env "llama-3.3-70b-versatile" transcriptText;
  collected ← segment_tone rt env segments;
  title ← lift (get rt (body req) "title");
  meeting_type ← lift (get rt (body req) "meeting_type");
  inserted ← supabase_insert env "meetings"
    (VArr [meeting_row rt title meeting_type transcription transcriptText analysis]);
  meetingRow ← lift (get rt inserted "data");
  meetErr ← lift (get rt inserted "error");
  if truthy meetErr || negb (truthy meetingRow) then
    mret (res_status_json 500 (VObj [("error", VStr "Failed to create meeting record")]))
  else
    let meetingId := prop meetingRow "id" in
    _ ← persist_dependents rt env fixedPath meetingId segments collected.1 collected.2;
    mret (res_json
            (VObj [("meetingId", meetingId);
                   ("transcript", transcriptText);
                   ("segments", VArr segments);
                   ("words", prop transcription "words");
                   ("emotion",
                    VObj [("moodScore", moodScore analysis);
                          ("dominantEmotion", dominantEmotion analysis);
                          ("emotionBreakdown", emotionBreakdown analysis);
                          ("segmentEmotions", VArr collected.2)])])).

(** The handler of [POST /transcribe]. *)
Definition transcribe (rt : Runtime) (env : Env) (req : Request) : M Response :=
  match file req with
  | None => mret no_file
  | Some f => try_catch (pipeline rt env req f) (pipeline_error rt f)
  end.

End VariantB.

(** ** The version of src/unnamed/part_000 *)

Module VariantC.

(** The callback of [result.forEach]. *)
Definition collect_entry (rt : Runtime) (payload : list value) (s : value)
  (acc : JsMap * list value) : Outcome (JsMap * list value) :=
  index ← get rt s "index";
  emotion ← get rt s "emotion";
  score ← get rt s "score";
  Ok (map_set index
        (VObj [("emotion", js_or emotion (VStr "neutral"));
               ("score", if typeof_number score then score else VNum 0.5)])
        acc.1,
      (acc.2 ++
       [VObj [("segment_index", index);
              ("start", js_coalesce (opt_prop (array_get payload index) "start") VNull);
              ("end", js_coalesce (opt_prop (array_get payload index) "end") VNull);
              ("emotion", js_or emotion (VStr "neutral"));
              ("score", if typeof_number score then score else VNum 0.5)]])%list).

Definition collect_segments (rt : Runtime) (payload : list value) (seg : value)
  : JsMap * list value :=
  match (content ← content_of rt seg;
         parsed ← json_parse rt content;
         get rt parsed "segments") with
  | Thrown _ => ([], [])
  | Ok found =>
      match js_or found (VArr []) with
      | VArr result => forEach_caught (collect_entry rt payload) result ([], [])
      | _ => ([], [])
      end
  end.

Definition segment_tone (rt : Runtime) (env : Env) (segments : list value)
  : M (JsMap * list value) :=
  if bool_decide (0 < length segments) then
    payload ← lift (segmentPayload rt segments);
    seg ← groq_chat env SegmentTone "llama-3.1-8b-instant";
    mret (collect_segments rt payload seg)
  else mret ([], []).

(** A reference to an identifier that nothing in the module declares:
    [whisper] and [analysis] in the meeting insert. *)
Definition undeclared (rt : Runtime) (ident : string) : Outcome value :=
  Thrown (error_value rt (NotDefined ident)).

(** A row of [transcripts]. *)
Definition transcript_row (rt : Runtime) (meetingId : value) (segmentEmotionMap : JsMap)
  (i : nat) (seg : value) : Outcome value :=
  start ← get rt seg "start";
  end_ ← get rt seg "end";
  text ← get rt seg "text";
  Ok (VObj [("meeting_id", meetingId);
            ("start", VStr (String_of rt start));
            ("end", VStr (String_of rt end_));
            ("text", text);
            ("emotion",
             js_or (opt_prop (map_get segmentEmotionMap (VNum (js_nat i))) "emotion") VNull);
            ("emotion_score",
             js_or (opt_prop (map_get segmentEmotionMap (VNum (js_nat i))) "score") VNull)]).

(** The [try] block of the handler, for a request with its file.  The object given to the meeting
    insert is built field by field, in order, before [insert] is called. *)
Definition pipeline (rt : Runtime) (env : Env) (req : Request) (f : Upload) : M Response :=
  let fixedPath := replace_backslashes (path f) in
  _ ← readFileSync rt fixedPath;
  transcription ← groq_transcribe env "whisper-large-v3-turbo";
  _ ← lift (get rt transcription "duration");
  let transcriptText := transcriptText transcription in
  let segments := segments_of transcription in
  tone ← overall_tone rt env "llama-3.3-70b-versatile" transcriptText;
  collected ← segment_tone rt env segments;
  title ← lift (get rt (body req) "title");
  meeting_type ← lift (get rt (body req) "meeting_type");
  whisper ← lift (undeclared rt "whisper");
  whisper_duration ← lift (get rt whisper "duration");
  analysis ← lift (undeclared rt "analysis");
  mood ← lift (get rt analysis "moodScore");
  dominant ← lift (get rt analysis "dominantEmotion");
  breakdown ← lift (get rt analysis "emotionBreakdown");
  whisper_text ← lift (get rt whisper "text");
  inserted ← supabase_insert env "meetings"
    (VArr [VObj [("title", js_or title (VStr "Untitled Meeting"));
                 ("meeting_type", js_or meeting_type (VStr "generic"));
                 ("duration",
                  if truthy whisper_duration
                  then VNum (Math_round rt (ToNumber rt whisper_duration))
                  else VNum 0);
                 ("mood_score", mood);
                 ("dominant_emotion", dominant);
                 ("emotion_breakdown", breakdown);
                 ("transcript", whisper_text);
                 ("cloud_path", VNull)]]);
  meetingRow ← lift (get rt inserted "data");
  meetErr ← lift (get rt inserted "error");
  if truthy meetErr || negb (truthy meetingRow) then
    mret (res_status_json 500 (VObj [("error", VStr "Failed to create meeting record")]))
  else
    let meetingId := prop meetingRow "id" in
    _ ← (if bool_decide (0 < length segments) then
           rows ← lift (map_indexed (transcript_row rt meetingId collected.1) 0 segments);
           _ ← supabase_insert env "transcripts" (VArr rows);
           mret ()
         else mret ());
    _ ← (if bool_decide (0 < length collected.2) then
           _ ← supabase_insert env "emotions" (VArr collected.2);
           mret ()
         else mret ());
    _ ← unlink fixedPath;
    mret (res_json
            (VObj [("meetingId", meetingId);
                   ("transcript", transcriptText);
                   ("segments", VArr segments);
                   ("words", prop transcription "words");
                   ("emotion",
                    VObj [("moodScore", moodScore tone);
                          ("dominantEmotion", dominantEmotion tone);
                          ("emotionBreakdown", emotionBreakdown tone);
                          ("segmentEmotions", VArr collected.2)])])).

(** The handler of [POST /transcribe]. *)
Definition transcribe (rt : Runtime) (env : Env) (req : Request) : M Response :=
  match file req with
  | None => mret no_file
  | Some f => try_catch (pipeline rt env req f) (pipeline_error rt f)
  end.

End VariantC.

(** ** A concrete runtime, outside and request, for the examples *)

Module Sample.

Definition two52 : float := 4503599627370496%float.

(** [Math.floor] and [Math.round] on binary64 (up to the sign of a zero
    result): below 2^52 in magnitude, adding and removing 2^52 rounds to a
    nearby integer; from 2^52 on every float is an integer. *)
Definition floor (x : float) : float :=
  if (abs x <? two52)%float then
    let r := if (0 <=? x)%float then ((x + two52) - two52)%float
             else ((x - two52) + two52)%float in
    if (x <? r)%float then (r - 1)%float else r
  else x.

Definition round (x : float) : float :=
  if (abs x <? two52)%float then
    let f := floor x in
    if (0.5 <=? x - f)%float then (f + 1)%float else f
  else x.

Definition dq : string := String (ascii_of_nat 34) EmptyString.
(** ["k":] and ["s"] in a JSON text. *)
Definition key (k : string) : string := dq ++ k ++ dq ++ ":".
Definition str (s : string) : string := dq ++ s ++ dq.

(** The texts the chat completions of the examples answer with. *)
Definition tone_text : string :=
  "{" ++ key "overallMoodScore" ++ "0.75," ++ key "dominantEmotion" ++ str "confident" ++ ","
      ++ key "emotionBreakdown" ++ "{" ++ key "confident" ++ "100}}".

Definition segments_text (index score : string) : string :=
  "{" ++ key "segments" ++ "[{" ++ key "index" ++ index ++ "," ++ key "emotion"
      ++ str "happy" ++ "," ++ key "score" ++ score ++ "}]}".

Definition summary_text : string :=
  "{" ++ key "summary" ++ "{" ++ key "bullets" ++ "[" ++ str "Shipped the beta" ++ "]},"
      ++ key "tasks" ++ "{" ++ key "items" ++ "[]}}".

Definition segments_value (index score : float) : value :=
  VObj [("segments",
         VArr [VObj [("index", VNum index); ("emotion", VStr "happy"); ("score", VNum score)]])].

(** [JSON.parse] on the texts above; every other text it is given in the
    examples is not JSON. *)
Definition parse_table : list (string * value) :=
  [("{}", VObj []);
   (tone_text,
    VObj [("overallMoodScore", VNum 0.75); ("dominantEmotion", VStr "confident");
          ("emotionBreakdown", VObj [("confident", VNum 100)])]);
   (segments_text "0" "0.5", segments_value 0 0.5);
   (segments_text "0" "1.5", segments_value 0 1.5);
   (segments_text "7" "0.5", segments_value 7 0.5);
   (summary_text,
    VObj [("summary", VObj [("bullets", VArr [VStr "Shipped the beta"])]);
          ("tasks", VObj [("items", VArr [])])])].

Fixpoint lookup_text (text : string) (table : list (string * value)) : option value :=
  match table with
  | [] => None
  | (t, v) :: rest => if String.eqb text t then Some v else lookup_text text rest
  end.

(** [String] on the values of the examples. *)
Definition text_of (v : value) : string :=
  match v with
  | VStr s => s
  | VUndef => "undefined"
  | VNull => "null"
  | VBool b => if b then "true" else "false"
  | VNum x =>
      if (x =? 0)%float then "0"
      else if (x =? 12.5)%float then "12.5"
      else if (x =? 30)%float then "30"
      else "NaN"
  | VArr _ => ""
  | VObj _ => "[object Object]"
  end.

(** The messages of the engine's errors. *)
Definition thrown (e : RuntimeError) : value :=
  mk_error
    match e with
    | ReadOfNullish v k =>
        "Cannot read properties of " ++ text_of v ++ " (reading '" ++ k ++ "')"
    | NotAFunction callee => callee ++ " is not a function"
    | NotDefined ident => ident ++ " is not defined"
    | JsonSyntax _ => "Unexpected token in JSON"
    | NoSuchFile p => "ENOENT: no such file or directory, open '" ++ p ++ "'"
    end.

Definition node : Runtime :=
  {| JSON_parse := λ text, lookup_text text parse_table;
     String_of := text_of;
     StringToNumber := λ s, if String.eqb s "" then 0%float else nan;
     Math_round := round;
     error_value := thrown |}.

Definition upload : Upload :=
  {| path := "tmp/3f2a9c"; originalname := "standup.wav"; mimetype := "audio/wav" |}.

(** The text fields of the form. *)
Definition fields : value := VObj [("title", VStr "Standup")].

Definition request : Request := {| file := Some upload; body := fields |}.

Definition world : World :=
  {| files := {[ "tmp/3f2a9c" ]}; trace := [] |}.

(** Thirty seconds, one segment. *)
Definition segment : value :=
  VObj [("start", VNum 0); ("end", VNum 12.5); ("text", VStr "Hello team")].

Definition transcription : value :=
  VObj [("text", VStr "Hello team"); ("segments", VArr [segment]);
        ("duration", VNum 30); ("words", VArr [])].

(** A transcription of silence. *)
Definition silence : value :=
  VObj [("text", VStr ""); ("segments", VArr []); ("duration", VNum 30); ("words", VArr [])].

(** A chat completion whose first choice's message is [content]. *)
Definition completion (content : string) : value :=
  VObj [("choices", VArr [VObj [("message", VObj [("content", VStr content)])]])].

(** An insert that succeeds, giving the stored row's identifier. *)
Definition inserted : Answer :=
  Returns (VObj [("data", VObj [("id", VStr "m-1")]); ("error", VNull)]).

(** An insert the datastore refuses. *)
Definition refused : Answer :=
  Returns (VObj [("data", VNull); ("error", VObj [("message", VStr "permission denied")])]).

(** The outside, by what each of the four kinds of call answers: the
    transcription, the three chat completions, the [meetings] insert (every
    other insert succeeds). *)
Definition outside (whisper overall segs summary meetings : Answer) : Env :=
  {| transcription_answer := whisper;
     chat_answer := λ stage,
       match stage with
       | OverallTone => overall
       | SegmentTone => segs
       | SummaryTasks => summary
       end;
     insert_answer := λ table _, if String.eqb table "meetings" then meetings else inserted;
     now_iso := "2025-01-01T00:00:00.000Z" |}.

(** Every call answers well. *)
Definition healthy : Env :=
  outside (Returns transcription)
          (Returns (completion tone_text))
          (Returns (completion (segments_text "0" "0.5")))
          (Returns (completion summary_text))
          inserted.

(** The overall-tone call fails on the network. *)
Definition tone_call_fails : Env :=
  outside (Returns transcription)
          (Throws (mk_error "fetch failed"))
          (Returns (completion (segments_text "0" "0.5")))
          (Returns (completion summary_text))
          inserted.

(** The overall-tone call answers a text that is not JSON. *)
Definition tone_unparsable : Env :=
  outside (Returns transcription)
          (Returns (completion "I cannot help with that"))
          (Returns (completion (segments_text "0" "0.5")))
          (Returns (completion summary_text))
          inserted.

(** The summary call answers a text that is not JSON. *)
Definition summary_unparsable : Env :=
  outside (Returns transcription)
          (Returns (completion tone_text))
          (Returns (completion (segments_text "0" "0.5")))
          (Returns (completion "Here is the summary you asked for"))
          inserted.

(** The segment analyzer scores the only segment 1.5. *)
Definition score_out_of_range : Env :=
  outside (Returns transcription)
          (Returns (completion tone_text))
          (Returns (completion (segments_text "0" "1.5")))
          (Returns (completion summary_text))
          inserted.

(** The segment analyzer labels a segment 7 of a one-segment transcript. *)
Definition index_out_of_range : Env :=
  outside (Returns transcription)
          (Returns (completion tone_text))
          (Returns (completion (segments_text "7" "0.5")))
          (Returns (completion summary_text))
          inserted.

(** The datastore refuses the meeting row. *)
Definition meeting_refused : Env :=
  outside (Returns transcription)
          (Returns (completion tone_text))
          (Returns (completion (segments_text "0" "0.5")))
          (Returns (completion summary_text))
          refused.

(** Nothing was said. *)
Definition silent : Env :=
  outside (Returns silence)
          (Returns (completion tone_text))
          (Returns (completion (segments_text "0" "0.5")))
          (Returns (completion summary_text))
          inserted.

End Sample.

Open Scope list_scope.

(** ** Vocabulary of the properties *)

(** [w'] is [w] after some more calls, each of them a [P]. *)
Definition appends (P : Event → Prop) (w w' : World) : Prop :=
  ∃ evs, trace w' = trace w ++ evs ∧ Forall P evs.

(** The same, the file store being as it was. *)
Definition only_appends (P : Event → Prop) (w w' : World) : Prop :=
  files w' = files w ∧ appends P w w'.

(** An insert into a table other than [meetings]. *)
Definition dependent_insert (ev : Event) : Prop :=
  ∃ table rows, ev = EvInsert table rows ∧ table ≠ "meetings".

(** The calls stages 4 to 6, and 7 to 9, of the first version may make. *)
Definition persist_event (row : value) (segmentEmotionsForDB : list value) (ev : Event) : Prop :=
  ev = EvInsert "meetings" row
  ∨ (∃ rows, ev = EvInsert "transcripts" rows)
  ∨ (∃ id, ev = EvInsert "emotions" (VArr (VariantA.emotion_row id <$> segmentEmotionsForDB))).

Definition summary_event (ev : Event) : Prop :=
  ev = EvChat SummaryTasks "llama-3.1-70b-versatile"
  ∨ (∃ rows, ev = EvInsert "summaries" rows)
  ∨ (∃ rows, ev = EvInsert "tasks" rows).

(** The row a [meetings] insert is given: itself, or alone in an array. *)
Definition inserted_row (rows : value) : value :=
  match rows with
  | VArr [row] => row
  | _ => rows
  end.

(** The fields of the overall tone are null, in a [meetings] row and in a
    response. *)
Definition meeting_tone_null (row : value) : Prop :=
  prop row "mood_score" = VNull
  ∧ prop row "dominant_emotion" = VNull
  ∧ prop row "emotion_breakdown" = VNull.

Definition response_tone_null (resp : Response) : Prop :=
  prop (prop (json resp) "emotion") "moodScore" = VNull
  ∧ prop (prop (json resp) "emotion") "dominantEmotion" = VNull
  ∧ prop (prop (json resp) "emotion") "emotionBreakdown" = VNull.

(** A run, started from [w], that made no overall-tone call and left the
    three outputs of that stage null, in the store and in the response. *)
Definition skips_overall_tone (run : Outcome Response * World) (w : World) : Prop :=
  (∀ model, EvChat OverallTone model ∈ trace run.2 → EvChat OverallTone model ∈ trace w)
  ∧ (∀ rows, EvInsert "meetings" rows ∈ trace run.2 →
             EvInsert "meetings" rows ∈ trace w ∨ meeting_tone_null (inserted_row rows))
  ∧ (∀ resp, run.1 = Ok resp → status resp = 200 → response_tone_null resp).

(** The root insert failed: it threw, answered nothing, answered an error,
    or answered no row. *)
Definition insert_failed (a : Answer) : bool :=
  match a with
  | Throws _ => true
  | Returns answer =>
      nullish answer || truthy (prop answer "error") || nullish (prop answer "data")
  end.

(** A run, started from [w], that answered 500 and wrote to no dependent
    table. *)
Definition fails_without_dependents (run : Outcome Response * World) (w : World) : Prop :=
  (∃ resp, run.1 = Ok resp ∧ status resp = 500)
  ∧ ∀ ev, ev ∈ trace run.2 → dependent_insert ev → ev ∈ trace w.

(** [0 ≤ index < count], for an index that is a number. *)
Definition valid_index (count : nat) (index : value) : bool :=
  match index with
  | VNum x => existsb (λ i, (js_nat i =? x)%float) (seq 0 count)
  | _ => false
  end.

(** A score that is a number of [[0, 1]]. *)
Definition score_in_unit (score : value) : bool :=
  match score with
  | VNum x => (0 <=? x)%float && (x <=? 1)%float
  | _ => false
  end.

(** The list the segment analyzer answered, as the first version reads it
    (empty when the call or the parse failed). *)
Definition analyzer_entries (rt : Runtime) (env : Env) : list value :=
  match chat_answer env SegmentTone with
  | Returns segCompletion =>
      match VariantA.segResults rt segCompletion with
      | Ok entries => entries
      | Thrown _ => []
      end
  | Throws _ => []
  end.

(** The overall-tone stage failed: its call threw, or its answer did not
    parse. *)
Definition overall_stage_fails (rt : Runtime) (env : Env) : Prop :=
  match chat_answer env OverallTone with
  | Throws _ => True
  | Returns completion => ∃ e, parse_overall rt completion = Thrown e
  end.

(** The failure of the overall-tone stage is not fatal, as the
    specification words it: the first version still answers 200 with the
    three tone fields null and the transcript and segments in place, and
    has gone on to the store. *)
Definition tone_failure_nonfatal (rt : Runtime) (env : Env) (req : Request) (w : World) : Prop :=
  overall_stage_fails rt env →
  ∃ resp w',
    VariantA.transcribe rt env req w = (Ok resp, w')
    ∧ status resp = 200
    ∧ response_tone_null resp
    ∧ (∀ t, transcription_answer env = Returns t →
            prop (json resp) "transcript" = transcriptText t
            ∧ prop (json resp) "segments" = VArr (segments_of t))
    ∧ ∃ row, EvInsert "meetings" row ∈ trace w'.

(** Every row the first version writes to [emotions] names a segment that
    exists, as the specification words it. *)
Definition persisted_indices_valid (rt : Runtime) (env : Env) (req : Request) (w : World)
  : Prop :=
  ∀ t rows,
    transcription_answer env = Returns t →
    EvInsert "emotions" (VArr rows) ∈ trace (VariantA.transcribe rt env req w).2 →
    Forall (λ row, valid_index (length (segments_of t)) (prop row "segment_index") = true) rows.

(** ** Vocabulary of the further properties *)

(** The character [c] occurs in [s]. *)
Fixpoint occurs (c : ascii) (s : string) : bool :=
  match s with
  | EmptyString => false
  | String c' rest => Ascii.eqb c' c || occurs c rest
  end.

Definition backslash : ascii := ascii_of_nat 92.

(** The answer of the [catch] block to the thrown value [err]. *)
Definition failure (rt : Runtime) (err : value) : Response :=
  res_status_json 500
    (VObj [("error", VStr "Failed to process meeting");
           ("details", js_or (opt_prop err "message") (VStr (String_of rt err)))]).

(** The three versions of the handler. *)
Definition versions : list (Runtime → Env → Request → M Response) :=
  [VariantA.transcribe; VariantB.transcribe; VariantC.transcribe].

(** A run that answered 500 with [err] as details after the calls [evs] and
    no other, and that, the upload having a path, asked for its removal. *)
Definition fails_after (rt : Runtime) (err : value) (evs : list Event) (f : Upload)
  (run : Outcome Response * World) (w : World) : Prop :=
  run.1 = Ok (failure rt err)
  ∧ trace run.2 = trace w ++ evs
  ∧ (path f ≠ "" → files run.2 = files w ∖ {[ path f ]}).

(** The tables that hold one row per segment. *)
Definition segment_tables : list string := ["transcripts"; "emotions"; "emotion_segments"].

(** A run, started from [w], that made no segment-tone call, wrote to no
    per-segment table, and answered, when it answered 200, with no segment
    and no segment emotion. *)
Definition skips_segment_stage (run : Outcome Response * World) (w : World) : Prop :=
  (∀ model, EvChat SegmentTone model ∈ trace run.2 → EvChat SegmentTone model ∈ trace w)
  ∧ (∀ table rows, table ∈ segment_tables →
       EvInsert table rows ∈ trace run.2 → EvInsert table rows ∈ trace w)
  ∧ (∀ resp, run.1 = Ok resp → status resp = 200 →
       prop (json resp) "segments" = VArr []
       ∧ prop (prop (json resp) "emotion") "segmentEmotions" = VArr []).

(** A run, started from [w], that answered 500 and wrote nothing to the
    datastore. *)
Definition fails_without_writes (run : Outcome Response * World) (w : World) : Prop :=
  (∃ resp, run.1 = Ok resp ∧ status resp = 500)
  ∧ ∀ table rows, EvInsert table rows ∈ trace run.2 → EvInsert table rows ∈ trace w.

(** One of the two tone calls is due, the transcription being [t], and
    throws. *)
Definition tone_call_throws (rt : Runtime) (env : Env) (t : value) : Prop :=
  (js_lt rt (VNum 0) (prop (transcriptText t) "length") = true
   ∧ ∃ e, chat_answer env OverallTone = Throws e)
  ∨ (segments_of t ≠ [] ∧ ∃ e, chat_answer env SegmentTone = Throws e).

(** Every row given to an insert, one row or an array of rows, names the
    meeting [id]. *)
Definition references (id : value) (rows : value) : Prop :=
  match rows with
  | VArr l => Forall (λ row, prop row "meeting_id" = id) l
  | row => prop row "meeting_id" = id
  end.

(** The identifier in the answer of the [meetings] insert. *)
Definition stored_id (answer : value) : value := prop (prop answer "data") "id".

(** Every insert a run, started from [w], made into a table other than
    [meetings] names the meeting whose row the run has inserted, by the
    identifier the datastore answered. *)
Definition dependents_reference_meeting (env : Env) (run : Outcome Response * World)
  (w : World) : Prop :=
  ∀ table rows,
    table ≠ "meetings" →
    EvInsert table rows ∈ trace run.2 →
    EvInsert table rows ∈ trace w
    ∨ ∃ meeting answer,
        EvInsert "meetings" meeting ∈ trace run.2
        ∧ insert_answer env "meetings" meeting = Returns answer
        ∧ references (stored_id answer) rows.

(** A dependent insert that names the meeting [id]. *)
Definition dependent_of (id : value) (ev : Event) : Prop :=
  ∃ table rows, ev = EvInsert table rows ∧ references id rows.

(** The place of a call in the pipeline: the transcription, the two tone
    calls, the meeting row, the per-segment rows, the summary call and its
    rows. *)
Definition phase (ev : Event) : nat :=
  match ev with
  | EvTranscribe _ => 0
  | EvChat OverallTone _ => 1
  | EvChat SegmentTone _ => 2
  | EvInsert table _ =>
      if String.eqb table "meetings" then 3
      else if String.eqb table "transcripts" then 4
      else if String.eqb table "emotions" || String.eqb table "emotion_segments" then 5
      else if String.eqb table "summaries" then 7
      else if String.eqb table "tasks" then 8
      else 9
  | EvChat SummaryTasks _ => 6
  end.

(** Places that go strictly up, from [lo] at least to [hi] at most. *)
Fixpoint ordered (lo hi : nat) (places : list nat) : bool :=
  match places with
  | [] => true
  | n :: rest => Nat.leb lo n && Nat.leb n hi && ordered (S n) hi rest
  end.

(** [w'] is [w] after calls made in the order of the pipeline, each at most
    once, between the places [lo] and [hi]. *)
Definition extends (lo hi : nat) (w w' : World) : Prop :=
  ∃ evs, trace w' = trace w ++ evs ∧ ordered lo hi (phase <$> evs) = true.

(** A run, started from [w], that called nothing, or called for the
    transcription first and then made each later call at most once, in the
    order of the pipeline, up to the place [last]. *)
Definition in_pipeline_order (last : nat) (run : Outcome Response * World) (w : World) : Prop :=
  trace run.2 = trace w
  ∨ ∃ rest, trace run.2 = trace w ++ EvTranscribe "whisper-large-v3-turbo" :: rest
            ∧ ordered 1 last (phase <$> rest) = true.

(** The entries of the analyzer's list that [forEach] gets through: those
    before the first null or undefined one. *)
Fixpoint heard (entries : list value) : list value :=
  match entries with
  | [] => []
  | s :: rest => if nullish s then [] else s :: heard rest
  end.

(** The last of [entries] whose [index] is the key [k], as a [Map] compares
    keys. *)
Definition last_labelled (k : value) (entries : list value) : option value :=
  foldl (λ found s, if same_value_zero (prop s "index") k then Some s else found)
        None entries.

(** The list the segment analyzer of the second version is read from:
    [parsed.segments || []] when it is an array, nothing otherwise. *)
Definition analyzer_list (rt : Runtime) (seg : value) : list value :=
  match (content ← content_of rt seg;
         parsed ← json_parse rt content;
         get rt parsed "segments") with
  | Ok found =>
      match js_or found (VArr []) with
      | VArr arr => arr
      | _ => []
      end
  | Thrown _ => []
  end.

(** [typeof s.score === "number" ? s.score : 0.5], the score the second
    version keeps of an entry. *)
Definition unchecked_score (s : value) : value :=
  if typeof_number (prop s "score") then prop s "score" else VNum 0.5.


(** A [meetings] row with a title and a type that are not empty, a numeric
    duration, and tone fields that are null or hold a value, never
    [undefined]. *)
Definition well_formed_meeting (row : value) : Prop :=
  truthy (prop row "title") = true
  ∧ truthy (prop row "meeting_type") = true
  ∧ typeof_number (prop row "duration") = true
  ∧ prop row "mood_score" ≠ VUndef
  ∧ prop row "dominant_emotion" ≠ VUndef
  ∧ prop row "emotion_breakdown" ≠ VUndef.

(** Every [meetings] insert of a run started from [w] satisfies [P]. *)
Definition meetings_rows (P : value → Prop) (run : Outcome Response * World) (w : World)
  : Prop :=
  ∀ rows, EvInsert "meetings" rows ∈ trace run.2 →
          EvInsert "meetings" rows ∈ trace w ∨ P (inserted_row rows).

(** [row] is the [transcripts] row of the segment [seg]: its text, its
    times as strings, the speaker the version puts; the columns are named
    [start], [end], [text] in the first version and [start_time], [end_time],
    [transcript_text] in the second. *)
Definition transcript_of (rt : Runtime) (start_ end_ text : string) (speaker : value)
  (row seg : value) : Prop :=
  prop row start_ = VStr (String_of rt (prop seg "start"))
  ∧ prop row end_ = VStr (String_of rt (prop seg "end"))
  ∧ prop row text = prop seg "text"
  ∧ prop row "speaker" = speaker.

(** Every [transcripts] insert of a run started from [w] holds one row per
    segment of the transcription, in order, each related to its segment by
    [R]; it is never made with no row. *)
Definition transcripts_follow_segments (R : value → value → Prop) (env : Env)
  (run : Outcome Response * World) (w : World) : Prop :=
  ∀ rows,
    EvInsert "transcripts" rows ∈ trace run.2 →
    EvInsert "transcripts" rows ∈ trace w
    ∨ ∃ t l, transcription_answer env = Returns t
             ∧ rows = VArr l
             ∧ l ≠ []
             ∧ Forall2 R l (segments_of t).

(** An event that, when it is a [transcripts] insert, holds a row per
    segment. *)
Definition transcripts_event (R : value → value → Prop) (segments : list value) (ev : Event)
  : Prop :=
  ∀ rows, ev = EvInsert "transcripts" rows →
          ∃ l, rows = VArr l ∧ l ≠ [] ∧ Forall2 R l segments.

(** The content of a chat completion is not JSON, or cannot be reached. *)
Definition unparsable (rt : Runtime) (completion : value) : Prop :=
  ∃ e, (content ← content_of rt completion; json_parse rt content) = Thrown e.

(** A [transcripts] row without a label. *)
Definition unlabelled (row : value) : Prop :=
  prop row "emotion" = VNull ∧ prop row "emotion_score" = VNull.

(** A run, started from [w], that went on without segment labels: it wrote
    no per-segment emotion, its [transcripts] rows have no label, its 200
    answer has no segment emotion, and the segment-tone call it made was
    followed by the [meetings] insert. *)
Definition goes_on_unlabelled (run : Outcome Response * World) (w : World) : Prop :=
  (∀ table rows, table ∈ ["emotions"; "emotion_segments"] →
     EvInsert table rows ∈ trace run.2 → EvInsert table rows ∈ trace w)
  ∧ (∀ rows, EvInsert "transcripts" rows ∈ trace run.2 →
       EvInsert "transcripts" rows ∈ trace w ∨ ∃ l, rows = VArr l ∧ Forall unlabelled l)
  ∧ (∀ resp, run.1 = Ok resp → status resp = 200 →
       prop (prop (json resp) "emotion") "segmentEmotions" = VArr [])
  ∧ (∀ model, EvChat SegmentTone model ∈ trace run.2 →
       EvChat SegmentTone model ∈ trace w ∨ ∃ rows, EvInsert "meetings" rows ∈ trace run.2).

(** The calls of the persisting stages when nothing was collected. *)
Definition unlabelled_event (ev : Event) : Prop :=
  (∃ rows, ev = EvInsert "meetings" rows)
  ∨ (∃ l, ev = EvInsert "transcripts" (VArr l) ∧ Forall unlabelled l).

(** The [meetings] insert answered a row and no error. *)
Definition meeting_stored (answer : value) : Prop :=
  nullish answer = false
  ∧ truthy (prop answer "error") = false
  ∧ truthy (prop answer "data") = true.

(** Every insert into a table other than [meetings] comes back, with an
    answer that satisfies [P]. *)
Definition dependents_answer (P : value → Prop) (env : Env) : Prop :=
  ∀ table rows, table ≠ "meetings" →
    ∃ v, insert_answer env table rows = Returns v ∧ P v.

(** What the summary call's answer is read as: the parsed content, or the
    empty analysis when it is not JSON. *)
Definition analysis_of (rt : Runtime) (content : value) : value :=
  match json_parse rt content with
  | Ok parsed => parsed
  | Thrown _ => VariantA.empty_analysis
  end.

(** A [summaries] row whose four lists are there, and a [tasks] row with a
    due date that is not null and no synchronisation status. *)
Definition summary_lists (row : value) : Prop :=
  truthy (prop row "bullets") = true
  ∧ truthy (prop row "decisions") = true
  ∧ truthy (prop row "risks") = true
  ∧ truthy (prop row "follow_up_questions") = true.

Definition task_defaults (row : value) : Prop :=
  nullish (prop row "due_date") = false ∧ prop row "notion_sync_status" = VNull.

(** The inserts of stages 8 and 9, by what they hold. *)
Definition summary_rows_event (ev : Event) : Prop :=
  (∀ row, ev = EvInsert "summaries" row → summary_lists row)
  ∧ (∀ rows, ev = EvInsert "tasks" rows →
       ∃ l, rows = VArr l ∧ l ≠ [] ∧ Forall task_defaults l).

Definition summary_rows (run : Outcome Response * World) (w : World) : Prop :=
  (∀ row, EvInsert "summaries" row ∈ trace run.2 →
          EvInsert "summaries" row ∈ trace w ∨ summary_lists row)
  ∧ (∀ rows, EvInsert "tasks" rows ∈ trace run.2 →
             EvInsert "tasks" rows ∈ trace w
             ∨ ∃ l, rows = VArr l ∧ l ≠ [] ∧ Forall task_defaults l).

(** A row for [emotion_segments] as the second version collects it: an
    object with a numeric score and an emotion that is not empty. *)
Definition scored (row : value) : Prop :=
  ∃ fields, row = VObj fields
            ∧ typeof_number (assoc "score" fields) = true
            ∧ truthy (assoc "emotion" fields) = true.

(** Every [emotion_segments] insert of a run started from [w] holds rows
    with a numeric score and an emotion. *)
Definition emotion_segments_scored (run : Outcome Response * World) (w : World) : Prop :=
  ∀ rows, EvInsert "emotion_segments" rows ∈ trace run.2 →
          EvInsert "emotion_segments" rows ∈ trace w
          ∨ ∃ l, rows = VArr l
                 ∧ Forall (λ row, typeof_number (prop row "score") = true
                                  ∧ truthy (prop row "emotion") = true) l.

(** A 200 answer that tells what the run stored: its [meetingId] is the
    identifier answered to the [meetings] insert of the run, and [same] holds
    of the row inserted and the answer's body. *)
Definition answers_what_it_stored (same : value → value → Prop) (env : Env)
  (run : Outcome Response * World) : Prop :=
  ∀ resp, run.1 = Ok resp → status resp = 200 →
    ∃ rows answer,
      EvInsert "meetings" rows ∈ trace run.2
      ∧ insert_answer env "meetings" rows = Returns answer
      ∧ prop (json resp) "meetingId" = stored_id answer
      ∧ same (inserted_row rows) (json resp).

(** The tone of the row is the tone of the answer. *)
Definition same_tone (row body : value) : Prop :=
  prop row "mood_score" = prop (prop body "emotion") "moodScore"
  ∧ prop row "dominant_emotion" = prop (prop body "emotion") "dominantEmotion"
  ∧ prop row "emotion_breakdown" = prop (prop body "emotion") "emotionBreakdown".

(** The transcript and the tone labels of the row are those of the answer
    (the mood score is stored on another scale). *)
Definition same_transcript (row body : value) : Prop :=
  prop row "transcript" = prop body "transcript"
  ∧ prop row "dominant_emotion" = prop (prop body "emotion") "dominantEmotion"
  ∧ prop row "emotion_breakdown" = prop (prop body "emotion") "emotionBreakdown".

(** A chat completion whose first choice has no content: no choice, no
    message, or a content that is empty. *)
Definition no_content (rt : Runtime) (completion : value) : Prop :=
  ∃ choices first,
    get rt completion "choices" = Ok choices
    ∧ index0 rt choices = Ok first
    ∧ truthy (opt_prop (opt_prop first "message") "content") = false.

(** ** Symbolic execution *)

(** Unfold the monad, then split on the innermost scrutinee, one call or
    test at a time; the stages stay folded. *)
Ltac unfold_monad :=
  unfold try_catch, pipeline_error, groq_chat, groq_transcribe, supabase_insert,
    emit, await, lift, throw, readFileSync, unlink, mbind, mret, M_bind, M_ret in *.

Ltac break_inner t :=
  lazymatch t with
  | context [match ?x with _ => _ end] => break_inner x
  | _ => destruct t eqn:?
  end.

Ltac step :=
  match goal with
  | |- context [match ?x with _ => _ end] => break_inner x
  end; cbn [fst snd files trace] in *.

Ltac tidy := cbn [fst snd files trace]; rewrite <- ?app_assoc; cbn [app].

(** From [(o1, w1) = (o2, w2)] to the two equations, substituted. *)
Ltac pair_eq H := first [discriminate H | injection H as <- <-].

(** [appends P w w'], or [only_appends P w w'], for a [w'] that is [w] with
    events added at the end of its trace; [tac] proves [P] of each. *)
Ltac appended tac :=
  try (split; [reflexivity |]); unfold appends; cbn [trace];
  first
    [ exists []; split; [symmetry; apply app_nil_r | constructor]
    | rewrite <- ?app_assoc; eexists; split;
      [reflexivity | repeat (constructor; [solve [tac] |]); constructor] ].

(** Which of its calls a stage's event is. *)
Ltac kinds Hin :=
  unfold persist_event, summary_event, dependent_insert in Hin;
  repeat match type of Hin with
    | _ ∨ _ => destruct Hin as [Hin | Hin]
    | ∃ _, _ => destruct Hin as [? Hin]
    | _ ∧ _ => destruct Hin as [Hin ?]
    end.

(** The answer a run got is the one the outside gave. *)
Ltac same_answer :=
  repeat match goal with
    | H : Returns ?a = Returns ?b |- _ => injection H as H; first [subst a | subst b]
    | H : Throws _ = Returns _ |- _ => discriminate H
    | H : Returns _ = Throws _ |- _ => discriminate H
    | H : Throws ?a = Throws ?b |- _ => injection H as H; first [subst a | subst b]
    end.

(** The first steps of a run whose file is there and whose transcription
    came back. *)
Ltac enter Hfile Ht Hnull :=
  cbn [file body]; cbv zeta; unfold get; unfold_monad;
  match goal with
  | |- context [decide (?p ∈ ?s)] =>
      destruct (decide (p ∈ s)) as [_ | ?]; [| contradiction]
  end;
  rewrite Ht; cbn [fst snd files trace]; rewrite Hnull; cbn [fst snd files trace].

(** Rewrite the file store of each world met to the one the run started from. *)
Ltac same_files :=
  cbn [fst snd files] in *;
  repeat match goal with
    | H : files ?w' = _ |- _ => rewrite H in *; clear H
    end.

(** A request whose file has a path. *)
Ltac no_path :=
  match goal with
  | H : negb (path _ =? "") = false |- _ =>
      apply negb_false_iff, String.eqb_eq in H; congruence
  end.

(** A path is in a given file store, by evaluation. *)
Ltac stored :=
  lazymatch goal with
  | |- ?P => apply (bool_decide_unpack P); vm_compute; exact I
  end.

(** The run on the left of an equation, evaluated; what its result is named
    on the right is read off. *)
Ltac evaluated :=
  lazymatch goal with
  | |- ?lhs = _ =>
      let v := eval vm_compute in lhs in
      exact (eq_refl v <: lhs = v)
  end.

(** [term], evaluated, as the equation [H]. *)
Ltac evaluate term H :=
  let v := eval vm_compute in term in
  assert (H : term = v) by exact (eq_refl v <: term = v).

(** An event is in a trace that is written out. *)
Ltac listed := repeat first [apply list_elem_of_here | apply list_elem_of_further].

(** ** How traces grow *)

Lemma appends_elem (P : Event → Prop) (w w' : World) (ev : Event) :
  appends P w w' → ev ∈ trace w' → ev ∈ trace w ∨ P ev.
Proof.
  intros (evs & Ht & HP) Hin. rewrite Ht in Hin.
  apply elem_of_app in Hin as [Hin | Hin]; [left; assumption | right].
  rewrite Forall_forall in HP. apply HP, Hin.
Qed.

(** Nothing is ever removed from the trace. *)
Lemma appends_keeps (P : Event → Prop) (w w' : World) (ev : Event) :
  appends P w w' → ev ∈ trace w → ev ∈ trace w'.
Proof.
  intros (evs & Ht & _) Hin. rewrite Ht. apply elem_of_app. left. assumption.
Qed.

Lemma nullish_not_truthy (v : value) : nullish v = true → truthy v = false.
Proof. destruct v; simpl; congruence. Qed.

Lemma removed (p : string) (s : gset string) : p ∉ s ∖ {[ p ]}.
Proof.
  intros Hin. apply elem_of_difference in Hin as [_ Hout].
  apply Hout, elem_of_singleton. reflexivity.
Qed.

(** ** The stages, one by one *)

Lemma overall_tone_empty (rt : Runtime) (env : Env) (model : string) :
  overall_tone rt env model (VStr "") = mret null_tone.
Proof. reflexivity. Qed.

Lemma overall_tone_appends rt env model text w o w' :
  overall_tone rt env model text w = (o, w') →
  only_appends (eq (EvChat OverallTone model)) w w'.
Proof.
  unfold overall_tone. unfold_monad.
  repeat step; intros H; pair_eq H; appended ltac:(reflexivity).
Qed.

Lemma segment_tone_A_appends rt env segments w o w' :
  VariantA.segment_tone rt env segments w = (o, w') →
  only_appends (eq (EvChat SegmentTone "llama-3.1-8b-instant")) w w'.
Proof.
  unfold VariantA.segment_tone. unfold_monad.
  repeat step; intros H; pair_eq H; appended ltac:(reflexivity).
Qed.

Lemma segment_tone_B_appends rt env segments w o w' :
  VariantB.segment_tone rt env segments w = (o, w') →
  only_appends (eq (EvChat SegmentTone "llama-3.1-8b-instant")) w w'.
Proof.
  unfold VariantB.segment_tone. unfold_monad.
  repeat step; intros H; pair_eq H; appended ltac:(reflexivity).
Qed.

Lemma segment_tone_C_appends rt env segments w o w' :
  VariantC.segment_tone rt env segments w = (o, w') →
  only_appends (eq (EvChat SegmentTone "llama-3.1-8b-instant")) w w'.
Proof.
  unfold VariantC.segment_tone. unfold_monad.
  repeat step; intros H; pair_eq H; appended ltac:(reflexivity).
Qed.

Lemma persist_meeting_appends rt env f t segments tone emap rowsDB w o w' :
  VariantA.persist_meeting rt env f t segments tone emap rowsDB w = (o, w') →
  only_appends (persist_event (VariantA.meeting_row rt env f t tone) rowsDB) w w'.
Proof.
  unfold VariantA.persist_meeting. unfold_monad.
  repeat step; intros H; pair_eq H;
    appended ltac:(unfold persist_event; eauto).
Qed.

(** The meeting insert is the first thing stage 4 does, whatever follows. *)
Lemma persist_meeting_inserts rt env f t segments tone emap rowsDB w o w' :
  VariantA.persist_meeting rt env f t segments tone emap rowsDB w = (o, w') →
  EvInsert "meetings" (VariantA.meeting_row rt env f t tone) ∈ trace w'.
Proof.
  unfold VariantA.persist_meeting. unfold_monad.
  repeat step; intros H; pair_eq H; cbn [trace];
    rewrite ?elem_of_app, list_elem_of_singleton; auto.
Qed.

(** When the meeting insert fails, stage 4 throws having done nothing else. *)
Lemma persist_meeting_failed rt env f t segments tone emap rowsDB w o w' :
  insert_failed (insert_answer env "meetings" (VariantA.meeting_row rt env f t tone)) = true →
  VariantA.persist_meeting rt env f t segments tone emap rowsDB w = (o, w') →
  (∃ e, o = Thrown e)
  ∧ only_appends (eq (EvInsert "meetings" (VariantA.meeting_row rt env f t tone))) w w'.
Proof.
  unfold VariantA.persist_meeting, insert_failed, get. unfold_monad.
  repeat step; intros Hf H; pair_eq H; try discriminate Hf;
    (split; [eexists; reflexivity | appended ltac:(reflexivity)]).
Qed.

Lemma summarise_appends rt env meetingId w o w' :
  VariantA.summarise rt env meetingId w = (o, w') → only_appends summary_event w w'.
Proof.
  unfold VariantA.summarise. unfold_monad.
  repeat step; intros H; pair_eq H;
    appended ltac:(unfold summary_event; eauto).
Qed.

Lemma persist_dependents_appends rt env fixedPath meetingId segments emap rows w o w' :
  VariantB.persist_dependents rt env fixedPath meetingId segments emap rows w = (o, w') →
  appends dependent_insert w w'.
Proof.
  unfold VariantB.persist_dependents. unfold_monad.
  repeat step; intros H; pair_eq H;
    appended ltac:(eexists _, _; split; [reflexivity | discriminate]).
Qed.

(** Stages 5 to 7 of the second version end by removing the upload. *)
Lemma persist_dependents_files rt env fixedPath meetingId segments emap rows w o w' :
  VariantB.persist_dependents rt env fixedPath meetingId segments emap rows w = (o, w') →
  files w' = match o with
             | Ok _ => files w ∖ {[ fixedPath ]}
             | Thrown _ => files w
             end.
Proof.
  unfold VariantB.persist_dependents. unfold_monad.
  repeat step; intros H; pair_eq H; reflexivity.
Qed.

(** What each stage that ran did, from the equation of its run. *)
Ltac stage_facts :=
  repeat match goal with
    | H : overall_tone _ _ _ _ _ = (_, _) |- _ =>
        apply overall_tone_appends in H; destruct H as [? H]
    | H : VariantA.segment_tone _ _ _ _ = (_, _) |- _ =>
        apply segment_tone_A_appends in H; destruct H as [? H]
    | H : VariantB.segment_tone _ _ _ _ = (_, _) |- _ =>
        apply segment_tone_B_appends in H; destruct H as [? H]
    | H : VariantC.segment_tone _ _ _ _ = (_, _) |- _ =>
        apply segment_tone_C_appends in H; destruct H as [? H]
    | H : VariantA.persist_meeting _ _ _ _ _ _ _ _ _ = (_, _) |- _ =>
        apply persist_meeting_appends in H; destruct H as [? H]
    | H : VariantA.summarise _ _ _ _ = (_, _) |- _ =>
        apply summarise_appends in H; destruct H as [? H]
    | H : VariantB.persist_dependents _ _ _ _ _ _ _ _ = (_, _) |- _ =>
        apply persist_dependents_appends in H
    end.

(** Follow an event of a later trace back through the stages. *)
Ltac chase Hin :=
  cbn [fst snd trace] in Hin;
  repeat match type of Hin with
    | _ ∈ trace ?w' =>
        match goal with
        | H : appends _ _ w' |- _ =>
            apply (appends_elem _ _ _ _ H) in Hin; destruct Hin as [Hin | Hin];
            cbn [trace] in Hin
        end
    | _ ∈ _ ++ _ => apply elem_of_app in Hin; destruct Hin as [Hin | Hin]
    | _ ∈ [_] => apply list_elem_of_singleton in Hin
    end.

(** ** The upload is missing *)

(** C9.  A request with no audio file attached is answered 400 with exactly
    the body [{"error": "No audio file uploaded"}], by each of the three
    versions, and the world is left as it was: no call to the outside and no
    write to the store. *)
Theorem missing_file_rejected (rt : Runtime) (env : Env) (b : value) (w : World) :
  let req := {| file := None; body := b |} in
  let answer := (Ok (res_status_json 400 (VObj [("error", VStr "No audio file uploaded")])), w) in
  VariantA.transcribe rt env req w = answer
  ∧ VariantB.transcribe rt env req w = answer
  ∧ VariantC.transcribe rt env req w = answer.
Proof. repeat split. Qed.

(** ** An empty transcript *)

Lemma empty_transcript_A rt env f b w t :
  transcription_answer env = Returns t →
  transcriptText t = VStr "" →
  skips_overall_tone (VariantA.transcribe rt env {| file := Some f; body := b |} w) w.
Proof.
  intros Ht Htext.
  unfold skips_overall_tone, VariantA.transcribe, VariantA.pipeline; cbn [file]; cbv zeta.
  unfold_monad. repeat step; same_answer.
  all: try match goal with
      | H : overall_tone _ _ _ (transcriptText _) _ = _ |- _ =>
          rewrite Htext, overall_tone_empty in H; pair_eq H
      end.
  all: stage_facts.
  all: (split; [| split]);
    [ intros model Hin; chase Hin; kinds Hin; first [assumption | discriminate Hin]
    | intros row Hin; chase Hin; kinds Hin;
      first [ left; assumption | discriminate Hin
            | right; injection Hin as ->; repeat split; reflexivity ]
    | intros resp Hresp Hst;
      first [ discriminate Hresp
            | injection Hresp as <-;
              first [discriminate Hst | repeat split; reflexivity] ] ].
Qed.

Lemma empty_transcript_B rt env f b w t :
  transcription_answer env = Returns t →
  transcriptText t = VStr "" →
  skips_overall_tone (VariantB.transcribe rt env {| file := Some f; body := b |} w) w.
Proof.
  intros Ht Htext.
  unfold skips_overall_tone, VariantB.transcribe, VariantB.pipeline; cbn [file]; cbv zeta.
  unfold_monad. repeat step; same_answer.
  all: try match goal with
      | H : overall_tone _ _ _ (transcriptText _) _ = _ |- _ =>
          rewrite Htext, overall_tone_empty in H; pair_eq H
      end.
  all: stage_facts.
  all: (split; [| split]);
    [ intros model Hin; chase Hin; kinds Hin; first [assumption | discriminate Hin]
    | intros row Hin; chase Hin; kinds Hin;
      first [ left; assumption | discriminate Hin | congruence
            | right; injection Hin as ->; repeat split; reflexivity ]
    | intros resp Hresp Hst;
      first [ discriminate Hresp
            | injection Hresp as <-;
              first [discriminate Hst | repeat split; reflexivity] ] ].
Qed.

Lemma empty_transcript_C rt env f b w t :
  transcription_answer env = Returns t →
  transcriptText t = VStr "" →
  skips_overall_tone (VariantC.transcribe rt env {| file := Some f; body := b |} w) w.
Proof.
  intros Ht Htext.
  unfold skips_overall_tone, VariantC.transcribe, VariantC.pipeline, VariantC.undeclared;
    cbn [file]; cbv zeta.
  unfold_monad. repeat step; same_answer.
  all: try match goal with
      | H : overall_tone _ _ _ (transcriptText _) _ = _ |- _ =>
          rewrite Htext, overall_tone_empty in H; pair_eq H
      end.
  all: stage_facts.
  all: (split; [| split]);
    [ intros model Hin; chase Hin; kinds Hin; first [assumption | discriminate Hin]
    | intros row Hin; chase Hin; kinds Hin; first [left; assumption | discriminate Hin]
    | intros resp Hresp Hst;
      first [ discriminate Hresp
            | injection Hresp as <-;
              first [discriminate Hst | repeat split; reflexivity] ] ].
Qed.

(** C7.  When the transcript text is empty the overall-tone stage is skipped:
    the stage makes no call and hands over three nulls, and in each of the
    three versions the run makes no overall-tone call, gives the [meetings]
    insert null tone fields, and answers, when it answers 200, with the three
    tone fields null. *)
Theorem empty_transcript_skips_overall_tone rt env f b w t :
  transcription_answer env = Returns t →
  transcriptText t = VStr "" →
  let req := {| file := Some f; body := b |} in
  (∀ model w0, overall_tone rt env model (transcriptText t) w0 = (Ok null_tone, w0))
  ∧ skips_overall_tone (VariantA.transcribe rt env req w) w
  ∧ skips_overall_tone (VariantB.transcribe rt env req w) w
  ∧ skips_overall_tone (VariantC.transcribe rt env req w) w.
Proof.
  intros Ht Htext req. split; [| split; [| split]].
  - intros model w0. rewrite Htext. reflexivity.
  - apply (empty_transcript_A rt env f b w t Ht Htext).
  - apply (empty_transcript_B rt env f b w t Ht Htext).
  - apply (empty_transcript_C rt env f b w t Ht Htext).
Qed.

(** On a recording of silence the first version answers 200 with null tone
    fields and calls the outside for the summary only. *)
Lemma empty_transcript_skips_overall_tone_witness :
  skips_overall_tone (VariantA.transcribe Sample.node Sample.silent Sample.request Sample.world)
    Sample.world
  ∧ trace (VariantA.transcribe Sample.node Sample.silent Sample.request Sample.world).2
    = [EvTranscribe "whisper-large-v3-turbo";
       EvInsert "meetings"
         (VObj [("title", VStr "standup.wav"); ("meeting_type", VStr "generic");
                ("duration", VNum 30); ("mood_score", VNull);
                ("dominant_emotion", VNull); ("emotion_breakdown", VNull)]);
       EvChat SummaryTasks "llama-3.1-70b-versatile";
       EvInsert "summaries"
         (VObj [("meeting_id", VStr "m-1"); ("bullets", VArr [VStr "Shipped the beta"]);
                ("decisions", VArr []); ("risks", VArr []);
                ("follow_up_questions", VArr [])])].
Proof.
  unfold Sample.request. split; [| vm_compute; reflexivity].
  apply (empty_transcript_skips_overall_tone Sample.node Sample.silent Sample.upload
           Sample.fields Sample.world Sample.silence);
    reflexivity.
Defined.

(** ** The meeting insert fails *)

Lemma meeting_failure_A rt env f b w :
  (∀ rows, insert_failed (insert_answer env "meetings" rows) = true) →
  fails_without_dependents (VariantA.transcribe rt env {| file := Some f; body := b |} w) w.
Proof.
  intros Hfail.
  unfold VariantA.transcribe, VariantA.pipeline; cbn [file]; cbv zeta.
  unfold_monad. repeat step.
  all: try match goal with
      | H : VariantA.persist_meeting _ _ _ _ _ _ _ _ _ = (_, _) |- _ =>
          apply persist_meeting_failed in H; [| apply Hfail];
          destruct H as [[? ?] [? H]]; try discriminate
      end.
  all: stage_facts.
  all: split; [eexists; split; reflexivity |].
  all: intros ev Hin (table & rows & -> & Hne); chase Hin; kinds Hin;
    first [assumption | discriminate Hin | congruence].
Qed.

Lemma meeting_failure_B rt env f b w :
  (∀ rows, insert_failed (insert_answer env "meetings" rows) = true) →
  fails_without_dependents (VariantB.transcribe rt env {| file := Some f; body := b |} w) w.
Proof.
  intros Hfail.
  unfold VariantB.transcribe, VariantB.pipeline; cbn [file]; cbv zeta.
  unfold get. unfold_monad. repeat step.
  all: try match goal with
      | H : insert_answer _ "meetings" ?rows = _ |- _ =>
          let Hf := fresh "Hf" in
          pose proof (Hfail rows) as Hf; rewrite H in Hf; cbn [insert_failed] in Hf
      end.
  all: try match goal with
      | Hf : _ || _ || _ = true, H1 : nullish ?v = false |- _ =>
          rewrite H1 in Hf; cbn [orb] in Hf
      end.
  all: try match goal with
      | Hf : _ || _ = true, H1 : _ || _ = false |- _ =>
          apply orb_false_iff in H1 as [H1 H1']; apply negb_false_iff in H1';
          rewrite H1 in Hf; cbn [orb] in Hf; apply nullish_not_truthy in Hf; congruence
      end.
  all: stage_facts.
  all: split; [eexists; split; reflexivity |].
  all: intros ev Hin (table & rows & -> & Hne); chase Hin; kinds Hin;
    first [assumption | discriminate Hin | congruence].
Qed.

(** C4.  When the root [meetings] insert fails (it throws, or answers an
    error) or answers no row, the handler answers 500 and writes to no
    dependent table: no [EvInsert] on a table other than [meetings] is added to
    the trace.  So do the first version, which throws, and the second, which
    returns. *)
Theorem meeting_failure_aborts rt env f b w :
  (∀ rows, insert_failed (insert_answer env "meetings" rows) = true) →
  let req := {| file := Some f; body := b |} in
  fails_without_dependents (VariantA.transcribe rt env req w) w
  ∧ fails_without_dependents (VariantB.transcribe rt env req w) w.
Proof.
  intros Hfail req. split.
  - apply meeting_failure_A, Hfail.
  - apply meeting_failure_B, Hfail.
Qed.

(** The datastore refuses the meeting row of the example. *)
Lemma meeting_failure_aborts_witness :
  (∀ rows, insert_failed (insert_answer Sample.meeting_refused "meetings" rows) = true)
  ∧ fails_without_dependents
      (VariantA.transcribe Sample.node Sample.meeting_refused Sample.request Sample.world)
      Sample.world
  ∧ fails_without_dependents
      (VariantB.transcribe Sample.node Sample.meeting_refused Sample.request Sample.world)
      Sample.world.
Proof.
  unfold Sample.request. split; [intros rows; reflexivity |].
  apply (meeting_failure_aborts Sample.node Sample.meeting_refused Sample.upload
           Sample.fields Sample.world).
  intros rows. reflexivity.
Defined.

(** ** The version of part_000 *)

(** C6.  In the version of src/unnamed/part_000 the object given to the
    meeting insert reads [whisper] and [analysis], which nothing declares: a
    request with a file is always answered 500 ("Failed to process meeting"),
    no insert is ever made, and when every step before the meeting insert went
    well the error thrown is the one for the undeclared [whisper]. *)
Theorem part_000_never_persists rt env f b w :
  ∃ err w',
    VariantC.transcribe rt env {| file := Some f; body := b |} w
    = (Ok (res_status_json 500
             (VObj [("error", VStr "Failed to process meeting");
                    ("details", js_or (opt_prop err "message") (VStr (String_of rt err)))])),
       w')
    ∧ (∀ table rows, EvInsert table rows ∈ trace w' → EvInsert table rows ∈ trace w)
    ∧ (∀ t tone w1 collected w2,
         replace_backslashes (path f) ∈ files w →
         transcription_answer env = Returns t →
         nullish t = false →
         overall_tone rt env "llama-3.3-70b-versatile" (transcriptText t)
           {| files := files w; trace := trace w ++ [EvTranscribe "whisper-large-v3-turbo"] |}
         = (Ok tone, w1) →
         VariantC.segment_tone rt env (segments_of t) w1 = (Ok collected, w2) →
         nullish b = false →
         err = error_value rt (NotDefined "whisper")).
Proof.
  unfold VariantC.transcribe, VariantC.pipeline, VariantC.undeclared; cbn [file body]; cbv zeta.
  unfold get. unfold_monad. repeat step.
  all: eexists _, _; split; [reflexivity |]; split.
  all: try (intros table rows Hin; stage_facts; chase Hin; kinds Hin;
            first [assumption | discriminate Hin]).
  all: intros t tone w1' collected w2' Hfile Ht Hnull Htone Hseg Hb;
    same_answer; try congruence.
  all: try (rewrite Htone in *; congruence).
  all: match goal with
       | H : overall_tone _ _ _ _ _ = _ |- _ => rewrite Htone in H; pair_eq H
       end.
  all: try congruence.
Qed.

(** With every call answering well, the run of part_000 ends on the
    undeclared [whisper] and has made no insert. *)
Lemma part_000_never_persists_witness :
  ∃ w',
    VariantC.transcribe Sample.node Sample.healthy Sample.request Sample.world
    = (Ok (res_status_json 500
             (VObj [("error", VStr "Failed to process meeting");
                    ("details", VStr "whisper is not defined")])),
       w')
    ∧ ∀ table rows, EvInsert table rows ∈ trace w' → EvInsert table rows ∈ trace Sample.world.
Proof.
  unfold Sample.request.
  destruct (part_000_never_persists Sample.node Sample.healthy Sample.upload
              Sample.fields Sample.world) as (err & w' & Hrun & Hnone & Herr).
  assert (err = error_value Sample.node (NotDefined "whisper")) as ->.
  { eapply Herr;
      [stored | reflexivity ..]. }
  exists w'. split; [exact Hrun | exact Hnone].
Defined.

(** ** The overall-tone stage fails *)

(** C1, as stated, fails on the code: with every other call answering well,
    a network error of the overall-tone call makes the first version answer
    500. *)
Lemma tone_call_failure_is_fatal :
  ¬ tone_failure_nonfatal Sample.node Sample.tone_call_fails Sample.request Sample.world.
Proof.
  intros Hclaim. destruct Hclaim as (resp & w' & Hrun & Hstatus & _); [exact I |].
  assert (Hanswer :
    (VariantA.transcribe Sample.node Sample.tone_call_fails Sample.request Sample.world).1
    = Ok (res_status_json 500
            (VObj [("error", VStr "Failed to process meeting");
                   ("details", VStr "fetch failed")])))
    by (vm_compute; reflexivity).
  rewrite Hrun in Hanswer. cbn in Hanswer. injection Hanswer as ->.
  discriminate Hstatus.
Qed.

(** C1, amended.  In the first version, for a request whose file is there
    and whose transcript is not empty: when the answer of the overall-tone call
    does not parse, the failure is absorbed -- once the segment stage is
    through, the [meetings] insert is made with the three tone fields null, and
    when the later stages complete the handler answers 200 with
    [emotion.moodScore], [emotion.dominantEmotion] and
    [emotion.emotionBreakdown] null and the transcript and segments in place;
    when the call itself throws, the handler answers 500, having called the
    outside for the transcription and the tone only. *)
Theorem tone_parse_failure_absorbed rt env f b w t :
  replace_backslashes (path f) ∈ files w →
  transcription_answer env = Returns t →
  nullish t = false →
  js_lt rt (VNum 0) (prop (transcriptText t) "length") = true →
  let run := VariantA.transcribe rt env {| file := Some f; body := b |} w in
  let w1 := {| files := files w;
               trace := trace w ++ [EvTranscribe "whisper-large-v3-turbo";
                                    EvChat OverallTone "llama-3.1-70b-versatile"] |} in
  (∀ c e collected w2,
     chat_answer env OverallTone = Returns c →
     parse_overall rt c = Thrown e →
     VariantA.segment_tone rt env (segments_of t) w1 = (Ok collected, w2) →
     EvInsert "meetings" (VariantA.meeting_row rt env f t null_tone) ∈ trace run.2
     ∧ meeting_tone_null (VariantA.meeting_row rt env f t null_tone)
     ∧ ∀ meetingId w3 extracted w4,
         VariantA.persist_meeting rt env f t (segments_of t) null_tone
           collected.1 collected.2 w2
         = (Ok meetingId, w3) →
         VariantA.summarise rt env meetingId w3 = (Ok extracted, w4) →
         run = (Ok (res_json
                      (VObj [("meetingId", meetingId);
                             ("transcript", transcriptText t);
                             ("segments", VArr (segments_of t));
                             ("words", prop t "words");
                             ("summary", extracted.1);
                             ("tasks", extracted.2);
                             ("emotion",
                              VObj [("moodScore", VNull);
                                    ("dominantEmotion", VNull);
                                    ("emotionBreakdown", VNull);
                                    ("segmentEmotions", VArr collected.2)])])),
                {| files := files w4 ∖ {[ replace_backslashes (path f) ]};
                   trace := trace w4 |}))
  ∧ (∀ e, chat_answer env OverallTone = Throws e →
       ∃ w', run = (Ok (res_status_json 500
                          (VObj [("error", VStr "Failed to process meeting");
                                 ("details",
                                  js_or (opt_prop e "message") (VStr (String_of rt e)))])),
                    w')
             ∧ trace w' = trace w1).
Proof.
  intros Hfile Ht Hnull Hlen run w1. subst run.
  split.
  - intros c e collected w2 Hc Hparse Hseg.
    assert (Hrun : VariantA.transcribe rt env {| file := Some f; body := b |} w
                   = try_catch
                       (meetingId ← VariantA.persist_meeting rt env f t (segments_of t)
                                      null_tone collected.1 collected.2;
                        extracted ← VariantA.summarise rt env meetingId;
                        _ ← unlink (replace_backslashes (path f));
                        mret (res_json
                                (VObj [("meetingId", meetingId);
                                       ("transcript", transcriptText t);
                                       ("segments", VArr (segments_of t));
                                       ("words", prop t "words");
                                       ("summary", extracted.1);
                                       ("tasks", extracted.2);
                                       ("emotion",
                                        VObj [("moodScore", VNull);
                                              ("dominantEmotion", VNull);
                                              ("emotionBreakdown", VNull);
                                              ("segmentEmotions", VArr collected.2)])])))
                       (pipeline_error rt f) w2).
    { unfold VariantA.transcribe, VariantA.pipeline, overall_tone.
      enter Hfile Ht Hnull. rewrite Hlen, Hc, Hparse. tidy.
      fold w1. rewrite Hseg. reflexivity. }
    rewrite Hrun. clear Hrun. split; [| split].
    + unfold_monad.
      destruct (VariantA.persist_meeting _ _ _ _ _ _ _ _ _) as [[meetingId | err] w3] eqn:Hp;
        apply persist_meeting_inserts in Hp.
      * destruct (VariantA.summarise _ _ _ _) as [[extracted | err] w4] eqn:Hs;
          apply summarise_appends in Hs as [_ Hs];
          pose proof (appends_keeps _ _ _ _ Hs Hp);
          [| destruct (negb _)]; assumption.
      * destruct (negb _); assumption.
    + repeat split; reflexivity.
    + intros meetingId w3 extracted w4 Hp Hs. unfold_monad. rewrite Hp, Hs. reflexivity.
  - intros e He.
    unfold VariantA.transcribe, VariantA.pipeline, overall_tone.
    enter Hfile Ht Hnull. rewrite Hlen, He. tidy.
    destruct (negb _); eexists; (split; [reflexivity | reflexivity]).
Qed.

(** The overall-tone call of the example answers a sentence, not JSON: the
    run answers 200 and the meeting row has null tone fields. *)
Lemma tone_parse_failure_absorbed_witness :
  (VariantA.transcribe Sample.node Sample.tone_unparsable Sample.request Sample.world).1
  = Ok (res_json
          (VObj [("meetingId", VStr "m-1");
                 ("transcript", VStr "Hello team");
                 ("segments", VArr [Sample.segment]);
                 ("words", VArr []);
                 ("summary", VObj [("bullets", VArr [VStr "Shipped the beta"])]);
                 ("tasks", VArr []);
                 ("emotion",
                  VObj [("moodScore", VNull);
                        ("dominantEmotion", VNull);
                        ("emotionBreakdown", VNull);
                        ("segmentEmotions",
                         VArr [VObj [("segment_index", VNum 0); ("start", VNum 0);
                                     ("end", VNum 12.5); ("emotion", VStr "happy");
                                     ("score", VNum 0.5)]])])]))
  ∧ EvInsert "meetings"
      (VObj [("title", VStr "standup.wav"); ("meeting_type", VStr "generic");
             ("duration", VNum 30); ("mood_score", VNull);
             ("dominant_emotion", VNull); ("emotion_breakdown", VNull)])
    ∈ trace (VariantA.transcribe Sample.node Sample.tone_unparsable
               Sample.request Sample.world).2.
Proof.
  unfold Sample.request.
  destruct (tone_parse_failure_absorbed Sample.node Sample.tone_unparsable Sample.upload
              Sample.fields Sample.world Sample.transcription)
    as [Habsorbed _];
    [stored | reflexivity | reflexivity | reflexivity |].
  edestruct Habsorbed as (Hinsert & _ & Hrun); [reflexivity | reflexivity | reflexivity |].
  split; [| exact Hinsert].
  erewrite Hrun.
  2, 3: evaluated.
  reflexivity.
Defined.

(** ** The summary does not parse *)

(** C8.  In the first version, the one that extracts a summary and tasks:
    when the stages before are through and the answer of the summary call is
    not JSON, the [summaries] insert is made with four empty lists, no [tasks]
    insert is made (the task list is empty), and, the [summaries] insert
    answering, the handler answers 200 with the empty summary and the empty
    task list: the parse failure is not fatal and the pipeline goes on to the
    store. *)
Theorem summary_parse_failure_degrades
  rt env f b w t tone w2 collected w3 meetingId w4 c content e :
  replace_backslashes (path f) ∈ files w →
  transcription_answer env = Returns t →
  nullish t = false →
  overall_tone rt env "llama-3.1-70b-versatile" (transcriptText t)
    {| files := files w; trace := trace w ++ [EvTranscribe "whisper-large-v3-turbo"] |}
  = (Ok tone, w2) →
  VariantA.segment_tone rt env (segments_of t) w2 = (Ok collected, w3) →
  VariantA.persist_meeting rt env f t (segments_of t) tone collected.1 collected.2 w3
  = (Ok meetingId, w4) →
  chat_answer env SummaryTasks = Returns c →
  content_of rt c = Ok content →
  json_parse rt content = Thrown e →
  let run := VariantA.transcribe rt env {| file := Some f; body := b |} w in
  let row := VObj [("meeting_id", meetingId);
                   ("bullets", VArr []);
                   ("decisions", VArr []);
                   ("risks", VArr []);
                   ("follow_up_questions", VArr [])] in
  EvInsert "summaries" row ∈ trace run.2
  ∧ (∀ rows, EvInsert "tasks" rows ∈ trace run.2 → EvInsert "tasks" rows ∈ trace w)
  ∧ (∀ answer,
       insert_answer env "summaries" row = Returns answer →
       nullish answer = false →
       run = (Ok (res_json
                    (VObj [("meetingId", meetingId);
                           ("transcript", transcriptText t);
                           ("segments", VArr (segments_of t));
                           ("words", prop t "words");
                           ("summary",
                            VObj [("bullets", VArr []); ("decisions", VArr []);
                                  ("risks", VArr []); ("followUpQuestions", VArr [])]);
                           ("tasks", VArr []);
                           ("emotion",
                            VObj [("moodScore", moodScore tone);
                                  ("dominantEmotion", dominantEmotion tone);
                                  ("emotionBreakdown", emotionBreakdown tone);
                                  ("segmentEmotions", VArr collected.2)])])),
              {| files := files w4 ∖ {[ replace_backslashes (path f) ]};
                 trace := trace w4 ++ [EvChat SummaryTasks "llama-3.1-70b-versatile";
                                       EvInsert "summaries" row] |})).
Proof.
  intros Hfile Ht Hnull Htone Hseg Hpersist Hc Hcontent Hparse run row. subst run.
  unfold VariantA.transcribe, VariantA.pipeline.
  enter Hfile Ht Hnull. rewrite Htone, Hseg, Hpersist. tidy.
  unfold VariantA.summarise. unfold get. unfold_monad. tidy.
  rewrite Hc, Hcontent, Hparse. tidy. cbn. fold row.
  apply overall_tone_appends in Htone as [_ Htone].
  apply segment_tone_A_appends in Hseg as [_ Hseg].
  apply persist_meeting_appends in Hpersist as [_ Hpersist].
  split; [| split].
  - repeat step; tidy; rewrite !elem_of_app, !elem_of_cons; auto.
  - intros rows. repeat step; tidy; intros Hin; chase Hin; kinds Hin;
      first [assumption | discriminate Hin
            | apply elem_of_cons in Hin as [Hin | Hin];
              [discriminate Hin | apply list_elem_of_singleton in Hin; discriminate Hin]].
  - intros answer Hanswer Hans. rewrite Hanswer, Hans. tidy. reflexivity.
Qed.

(** The summary call of the example answers a sentence, not JSON. *)
Lemma summary_parse_failure_degrades_witness :
  ∃ resp,
    (VariantA.transcribe Sample.node Sample.summary_unparsable Sample.request Sample.world).1
    = Ok resp
    ∧ status resp = 200
    ∧ prop (json resp) "summary" = VariantA.empty_summary
    ∧ prop (json resp) "tasks" = VArr []
    ∧ EvInsert "summaries"
        (VObj [("meeting_id", VStr "m-1"); ("bullets", VArr []); ("decisions", VArr []);
               ("risks", VArr []); ("follow_up_questions", VArr [])])
      ∈ trace (VariantA.transcribe Sample.node Sample.summary_unparsable
                 Sample.request Sample.world).2.
Proof.
  unfold Sample.request.
  edestruct (summary_parse_failure_degrades Sample.node Sample.summary_unparsable
               Sample.upload Sample.fields Sample.world Sample.transcription)
    as (Hinsert & _ & Hrun).
  1: stored.
  1, 2: reflexivity.
  1, 2, 3: evaluated.
  1, 2, 3: reflexivity.
  erewrite Hrun; [| reflexivity | reflexivity].
  eexists. split; [reflexivity |]. repeat split. exact Hinsert.
Defined.

(** ** Two scales for the mood score *)

(** C10.  In the second version, for a request that reaches the meeting
    insert with a parsed overall mood score that is not null: the row given to
    the [meetings] insert has [mood_score = Math.round(moodScore * 100)], while a
    200 response carries in [emotion.moodScore] the parsed value itself -- the
    stored and the returned score of one run are on two scales. *)
Theorem mood_score_scaled_only_in_store rt env f b w t c content parsed collected w2 :
  replace_backslashes (path f) ∈ files w →
  transcription_answer env = Returns t →
  nullish t = false →
  js_lt rt (VNum 0) (prop (transcriptText t) "length") = true →
  chat_answer env OverallTone = Returns c →
  content_of rt c = Ok content →
  json_parse rt content = Ok parsed →
  nullish parsed = false →
  nullish (prop parsed "overallMoodScore") = false →
  VariantB.segment_tone rt env (segments_of t)
    {| files := files w;
       trace := trace w ++ [EvTranscribe "whisper-large-v3-turbo";
                            EvChat OverallTone "llama-3.3-70b-versatile"] |}
  = (Ok collected, w2) →
  nullish b = false →
  let run := VariantB.transcribe rt env {| file := Some f; body := b |} w in
  ∃ row,
    prop row "mood_score"
    = VNum (Math_round rt (ToNumber rt (prop parsed "overallMoodScore") * 100)%float)
    ∧ EvInsert "meetings" (VArr [row]) ∈ trace run.2
    ∧ ∀ resp, run.1 = Ok resp → status resp = 200 →
              prop (prop (json resp) "emotion") "moodScore" = prop parsed "overallMoodScore".
Proof.
  intros Hfile Ht Hnull Hlen Hc Hcontent Hparse Hparsed Hscore Hseg Hb run. subst run.
  unfold VariantB.transcribe, VariantB.pipeline, overall_tone, parse_overall.
  enter Hfile Ht Hnull. rewrite Hlen, Hc. tidy.
  unfold mbind, Outcome_bind. rewrite Hcontent, Hparse. unfold get. rewrite Hparsed.
  tidy. rewrite Hseg, Hb. tidy.
  eexists. split; [| split].
  2: { repeat step; stage_facts; tidy;
         repeat match goal with
           | H : appends _ _ ?w' |- _ ∈ trace ?w' =>
               apply (appends_keeps _ _ _ _ H); tidy
           end;
         apply elem_of_app; right; apply list_elem_of_singleton; reflexivity. }
  - cbn. unfold VariantB.scaled_mood, js_coalesce. cbn [moodScore].
    repeat (rewrite Hscore; cbn [negb]). reflexivity.
  - intros resp. repeat step; tidy; intros Hresp Hst;
      first [ discriminate Hresp
            | injection Hresp as <-;
              first [ discriminate Hst
                    | cbn; unfold js_coalesce; rewrite Hscore; reflexivity ] ].
Qed.

(** The tone call of the example scores the mood 0.75: the second version
    stores 75 and returns 0.75. *)
Lemma mood_score_scaled_only_in_store_witness :
  ∃ row resp,
    prop row "mood_score" = VNum 75
    ∧ EvInsert "meetings" (VArr [row])
      ∈ trace (VariantB.transcribe Sample.node Sample.healthy Sample.request Sample.world).2
    ∧ (VariantB.transcribe Sample.node Sample.healthy Sample.request Sample.world).1 = Ok resp
    ∧ status resp = 200
    ∧ prop (prop (json resp) "emotion") "moodScore" = VNum 0.75.
Proof.
  unfold Sample.request.
  edestruct (mood_score_scaled_only_in_store Sample.node Sample.healthy
               Sample.upload Sample.fields Sample.world Sample.transcription)
    as (row & Hrow & Hinsert & Hresp).
  1: stored.
  1, 2, 3, 4: reflexivity.
  1, 2: evaluated.
  1, 2: reflexivity.
  1: evaluated.
  1: reflexivity.
  exists row. eexists. split; [exact Hrow |]. split; [exact Hinsert |].
  split; [vm_compute; reflexivity |]. split; [reflexivity |].
  apply Hresp; [vm_compute; reflexivity | reflexivity].
Defined.

(** ** The rows collected from the segment analyzer *)

Lemma map_indexed_length {A : Type} (f : nat → value → Outcome A) (l : list value) :
  ∀ i ys, map_indexed f i l = Ok ys → length ys = length l.
Proof.
  induction l as [| x l IH]; intros i ys H; cbn in H.
  - injection H as <-. reflexivity.
  - destruct (f i x) as [y |]; cbn in H; [| discriminate].
    destruct (map_indexed f (S i) l) as [ys' |] eqn:E; cbn in H; [| discriminate].
    injection H as <-. cbn. f_equal. eapply IH, E.
Qed.

(** A number that is no position of the array reads as [undefined]. *)
Lemma elem_at_number_invalid (x : float) (l : list value) :
  ∀ i, existsb (λ k, (js_nat k =? x)%float) (seq i (length l)) = false →
       elem_at_number x (js_nat i) l = VUndef.
Proof.
  induction l as [| e l IH]; intros i H; cbn in *; [reflexivity |].
  apply orb_false_iff in H as [H1 H2]. rewrite H1. apply (IH (S i)), H2.
Qed.

Lemma take_length_take {A : Type} (k : nat) (l : list A) :
  take (length (take k l)) l = take k l.
Proof.
  revert k. induction l as [| x l IH]; intros [| k]; cbn; try reflexivity.
  f_equal. apply IH.
Qed.

(** From a relation between rows and entries to a property of the rows. *)
Lemma Forall2_left {A B : Type} (P : A → B → Prop) (R : B → Prop) (Q : A → Prop)
  (l : list A) (k : list B) :
  Forall2 P l k → Forall R k → (∀ x y, P x y → R y → Q x) → Forall Q l.
Proof.
  intros H. induction H as [| x y l k Hxy _ IH]; intros HR HQ; [constructor |].
  inversion HR; subst. constructor; [eapply HQ; eassumption | apply IH; assumption].
Qed.

(** The rows pushed are those of the entries before the first null one, in
    order. *)
Lemma forEach_pushed_rows rt payload entries :
  ∀ acc, ∃ k,
    (forEach_caught (VariantA.collect_entry rt payload) entries acc).2
    = acc.2 ++ (VariantA.pushed_row rt payload <$> take k entries).
Proof.
  induction entries as [| s entries IH]; intros acc; cbn.
  - exists 0. cbn. symmetry. apply app_nil_r.
  - unfold VariantA.collect_entry at 1, get. destruct (nullish s); cbn.
    + exists 0. cbn. symmetry. apply app_nil_r.
    + destruct (IH (map_set (prop s "index")
                      (VObj [("emotion", js_or (prop s "emotion") (VStr "neutral"));
                             ("score", VariantA.checked_score rt (prop s "score"))]) acc.1,
                    acc.2 ++ [VariantA.pushed_row rt payload s])) as [k Hk].
      exists (S k). rewrite Hk. cbn. rewrite <- app_assoc. reflexivity.
Qed.

Lemma collect_segments_rows rt env payload segCompletion :
  chat_answer env SegmentTone = Returns segCompletion →
  ∃ k, (VariantA.collect_segments rt payload segCompletion).2
       = VariantA.pushed_row rt payload <$> take k (analyzer_entries rt env).
Proof.
  intros Hc. unfold VariantA.collect_segments, analyzer_entries. rewrite Hc.
  destruct (VariantA.segResults rt segCompletion) as [entries |].
  - destruct (forEach_pushed_rows rt payload entries ([], [])) as [k Hk].
    exists k. exact Hk.
  - exists 0. reflexivity.
Qed.

(** What stage 3 hands over: nothing, or what it collected from the answer. *)
Lemma segment_tone_A_result rt env segments w collected w' :
  VariantA.segment_tone rt env segments w = (Ok collected, w') →
  ∃ payload,
    segmentPayload rt segments = Ok payload
    ∧ (collected.2 = []
       ∨ ∃ segCompletion,
           chat_answer env SegmentTone = Returns segCompletion
           ∧ collected = VariantA.collect_segments rt payload segCompletion).
Proof.
  unfold VariantA.segment_tone. unfold_monad.
  repeat step; intros H; pair_eq H.
  - eexists. split; [reflexivity |]. right. eexists. split; reflexivity.
  - destruct segments; [| apply bool_decide_eq_false in Heqb; cbn in Heqb; lia].
    exists []. split; [reflexivity | left; reflexivity].
Qed.

Lemma checked_score_in_unit rt score :
  score_in_unit (VariantA.checked_score rt score) = true.
Proof.
  unfold VariantA.checked_score, js_le.
  destruct score; cbn; try reflexivity.
  destruct (0 <=? x)%float eqn:H0; cbn; [| reflexivity].
  destruct (x <=? 1)%float eqn:H1; cbn; [| reflexivity].
  rewrite H0, H1. reflexivity.
Qed.

Lemma emotion_defaulted emotion : truthy (js_or emotion (VStr "neutral")) = true.
Proof. unfold js_or. destruct (truthy emotion) eqn:E; [exact E | reflexivity]. Qed.

(** The rows of the first version's [emotions] insert, from the entries they
    were made from. *)
Lemma emotions_rows_A rt env f b w rows :
  EvInsert "emotions" (VArr rows)
    ∈ trace (VariantA.transcribe rt env {| file := Some f; body := b |} w).2 →
  EvInsert "emotions" (VArr rows) ∈ trace w
  ∨ ∃ t payload meetingId k,
      transcription_answer env = Returns t
      ∧ segmentPayload rt (segments_of t) = Ok payload
      ∧ rows = VariantA.emotion_row meetingId
               <$> (VariantA.pushed_row rt payload <$> take k (analyzer_entries rt env)).
Proof.
  unfold VariantA.transcribe, VariantA.pipeline; cbn [file]; cbv zeta.
  unfold_monad. repeat step.
  all: try match goal with
      | H : VariantA.segment_tone _ _ _ _ = (Ok _, _) |- _ =>
          pose proof (segment_tone_A_result _ _ _ _ _ _ H)
      end.
  all: stage_facts.
  all: intros Hin; chase Hin; kinds Hin;
    first [left; assumption | discriminate Hin | idtac].
  all: injection Hin as ->; right.
  all: match goal with
       | H : ∃ _, _ |- _ => destruct H as (payload & Hp & [H | (c & Hc & ->)])
       end.
  all: try (rewrite H; eexists _, _, _, 0; repeat split; first [reflexivity | eassumption]).
  all: match goal with
       | Hc : chat_answer _ SegmentTone = Returns ?c,
         Hp : segmentPayload ?rt _ = Ok ?payload |- _ =>
           let k := fresh "k" in
           let Hk := fresh "Hk" in
           destruct (collect_segments_rows rt _ payload c Hc) as [k Hk];
           rewrite Hk; eexists _, _, _, k; repeat split; first [reflexivity | eassumption]
       end.
Qed.

Lemma persisted_rows_shape rt payload meetingId (es : list value) :
  Forall2 (λ row s, prop row "segment_index" = prop s "index"
                    ∧ score_in_unit (prop row "score") = true
                    ∧ truthy (prop row "emotion") = true
                    ∧ prop row "start"
                      = js_coalesce (opt_prop (array_get payload (prop s "index")) "start") VNull
                    ∧ prop row "end"
                      = js_coalesce (opt_prop (array_get payload (prop s "index")) "end") VNull)
    (VariantA.emotion_row meetingId <$> (VariantA.pushed_row rt payload <$> es)) es.
Proof.
  induction es as [| s es IH]; cbn; constructor; [| exact IH].
  repeat split; cbn.
  - apply checked_score_in_unit.
  - apply emotion_defaulted.
Qed.

(** ** Segment indices *)

(** C5, as stated, fails on the code: the analyzer of the example labels a
    segment 7 of a transcript of one segment, and the first version writes the
    row to [emotions]. *)
Lemma out_of_range_index_persisted :
  ¬ persisted_indices_valid Sample.node Sample.index_out_of_range Sample.request Sample.world.
Proof.
  intros Hclaim.
  specialize (Hclaim Sample.transcription
                [VObj [("meeting_id", VStr "m-1"); ("segment_index", VNum 7);
                       ("start", VNull); ("end", VNull);
                       ("emotion", VStr "happy"); ("score", VNum 0.5)]]
                eq_refl).
  assert (Htrace :
    trace (VariantA.transcribe Sample.node Sample.index_out_of_range
             Sample.request Sample.world).2
    = [EvTranscribe "whisper-large-v3-turbo";
       EvChat OverallTone "llama-3.1-70b-versatile";
       EvChat SegmentTone "llama-3.1-8b-instant";
       EvInsert "meetings"
         (VObj [("title", VStr "standup.wav"); ("meeting_type", VStr "generic");
                ("duration", VNum 30); ("mood_score", VNum 0.75);
                ("dominant_emotion", VStr "confident");
                ("emotion_breakdown", VObj [("confident", VNum 100)])]);
       EvInsert "transcripts"
         (VArr [VObj [("meeting_id", VStr "m-1"); ("start", VStr "0"); ("end", VStr "12.5");
                      ("text", VStr "Hello team"); ("speaker", VNull);
                      ("emotion", VNull); ("emotion_score", VNull)]]);
       EvInsert "emotions"
         (VArr [VObj [("meeting_id", VStr "m-1"); ("segment_index", VNum 7);
                      ("start", VNull); ("end", VNull);
                      ("emotion", VStr "happy"); ("score", VNum 0.5)]]);
       EvChat SummaryTasks "llama-3.1-70b-versatile";
       EvInsert "summaries"
         (VObj [("meeting_id", VStr "m-1"); ("bullets", VArr [VStr "Shipped the beta"]);
                ("decisions", VArr []); ("risks", VArr []);
                ("follow_up_questions", VArr [])])])
    by (vm_compute; reflexivity).
  rewrite Htrace in Hclaim.
  assert (Hrow : Forall
                   (λ row, valid_index (length (segments_of Sample.transcription))
                             (prop row "segment_index") = true)
                   [VObj [("meeting_id", VStr "m-1"); ("segment_index", VNum 7);
                          ("start", VNull); ("end", VNull);
                          ("emotion", VStr "happy"); ("score", VNum 0.5)]]).
  { apply Hclaim. do 5 apply list_elem_of_further. apply list_elem_of_here. }
  inversion Hrow as [| row rows Hvalid _]. discriminate Hvalid.
Qed.

(** C5, amended.  Every row the first version writes to [emotions] carries
    as [segment_index] the index of the analyzer's entry it was made from
    (the entries before the first null one, in order), unchecked: the indices
    written are valid whenever the analyzer's are, and a numeric index that
    names no segment is written as it is, with null [start] and [end]. *)
Theorem persisted_index_is_analyzers rt env f b w rows :
  EvInsert "emotions" (VArr rows)
    ∈ trace (VariantA.transcribe rt env {| file := Some f; body := b |} w).2 →
  EvInsert "emotions" (VArr rows) ∈ trace w
  ∨ (Forall2 (λ row s, prop row "segment_index" = prop s "index")
       rows (take (length rows) (analyzer_entries rt env))
     ∧ (∀ count,
          Forall (λ s, valid_index count (prop s "index") = true) (analyzer_entries rt env) →
          Forall (λ row, valid_index count (prop row "segment_index") = true) rows)
     ∧ (∀ t, transcription_answer env = Returns t →
             Forall (λ row,
                       typeof_number (prop row "segment_index") = true →
                       valid_index (length (segments_of t)) (prop row "segment_index") = false →
                       prop row "start" = VNull ∧ prop row "end" = VNull)
                    rows)).
Proof.
  intros Hin. apply emotions_rows_A in Hin as [Hin | (t & payload & id & k & Ht & Hp & ->)];
    [left; exact Hin | right].
  pose proof (persisted_rows_shape rt payload id (take k (analyzer_entries rt env))) as Hshape.
  rewrite !length_fmap, take_length_take.
  split; [| split].
  - eapply Forall2_impl; [exact Hshape |]. intros row s H. apply H.
  - intros count Hvalid. apply (Forall_take _ k) in Hvalid.
    eapply Forall2_left; [exact Hshape | exact Hvalid |].
    cbn. intros row s (-> & _) Hs. exact Hs.
  - intros t' Ht'. assert (t' = t) as -> by congruence.
    eapply Forall2_left; [exact Hshape | apply Forall_true; exact (λ _, I) |].
    cbn. intros row s (Hidx & _ & _ & -> & ->) _ Hnum Hinvalid. rewrite Hidx in *.
    destruct (prop s "index") as [| | | x | | |]; try discriminate Hnum.
    apply map_indexed_length in Hp. cbn in Hinvalid. rewrite <- Hp in Hinvalid.
    unfold array_get. cbn [ToPropertyKey].
    pose proof (elem_at_number_invalid x payload 0 Hinvalid) as Hundef.
    cbn [js_nat] in Hundef. rewrite Hundef. split; reflexivity.
Qed.

(** The analyzer of the example labels a segment 7: the row written carries
    7, the index of the entry. *)
Lemma persisted_index_is_analyzers_witness :
  valid_index 1 (VNum 7) = false
  ∧ Forall2 (λ row s, prop row "segment_index" = prop s "index")
      [VObj [("meeting_id", VStr "m-1"); ("segment_index", VNum 7);
             ("start", VNull); ("end", VNull);
             ("emotion", VStr "happy"); ("score", VNum 0.5)]]
      (take 1 (analyzer_entries Sample.node Sample.index_out_of_range)).
Proof.
  split; [reflexivity |].
  destruct (persisted_index_is_analyzers Sample.node Sample.index_out_of_range
              Sample.upload Sample.fields Sample.world
              [VObj [("meeting_id", VStr "m-1"); ("segment_index", VNum 7);
                     ("start", VNull); ("end", VNull);
                     ("emotion", VStr "happy"); ("score", VNum 0.5)]])
    as [Hbefore | (Hindex & _)].
  - evaluate (trace (VariantA.transcribe Sample.node Sample.index_out_of_range
                       {| file := Some Sample.upload; body := Sample.fields |}
                       Sample.world).2) Htrace.
    rewrite Htrace. listed.
  - inversion Hbefore.
  - exact Hindex.
Defined.

(** ** Scores *)

(** C2, on the second version: the analyzer of the example scores the only
    segment 1.5, a number outside [[0, 1]]; the run answers 200 and the row
    written to [emotion_segments] carries 1.5. *)
Theorem unchecked_score_stored :
  let run := VariantB.transcribe Sample.node Sample.score_out_of_range
               Sample.request Sample.world in
  (∃ resp, run.1 = Ok resp ∧ status resp = 200)
  ∧ EvInsert "emotion_segments"
      (VArr [VObj [("meeting_id", VStr "m-1"); ("segment_index", VNum 0);
                   ("start_time", VNum 0); ("end_time", VNum 12.5);
                   ("emotion", VStr "happy"); ("score", VNum 1.5)]])
    ∈ trace run.2
  ∧ score_in_unit (VNum 1.5) = false.
Proof.
  cbv zeta. split; [| split; [| reflexivity]].
  - eexists. split; [vm_compute; reflexivity | reflexivity].
  - evaluate (trace (VariantB.transcribe Sample.node Sample.score_out_of_range
                       Sample.request Sample.world).2) Htrace.
    rewrite Htrace. listed.
Qed.



(** ** The temporary file *)

(** C3, on the second version: the datastore of the example refuses the
    meeting row; the handler answers 500 ("Failed to create meeting record") and
    the uploaded file is still in the temporary store. *)
Theorem upload_survives_meeting_failure :
  let run := VariantB.transcribe Sample.node Sample.meeting_refused
               Sample.request Sample.world in
  run.1 = Ok (res_status_json 500 (VObj [("error", VStr "Failed to create meeting record")]))
  ∧ path Sample.upload ∈ files run.2.
Proof.
  cbv zeta. split; [vm_compute; reflexivity | stored].
Qed.

(** The first version removes the upload on every path: after the run the
    path of the upload names no file, provided the normalised path names no
    other file of the store. *)
Theorem first_version_removes_upload rt env f b w :
  path f ≠ "" →
  (replace_backslashes (path f) ∈ files w → replace_backslashes (path f) = path f) →
  path f ∉ files (VariantA.transcribe rt env {| file := Some f; body := b |} w).2.
Proof.
  intros Hpath Hfixed.
  unfold VariantA.transcribe, VariantA.pipeline; cbn [file]; cbv zeta.
  unfold_monad. repeat step.
  all: stage_facts; same_files.
  all: try no_path.
  all: try (rewrite Hfixed by assumption).
  all: apply removed.
Qed.

(** The meeting row refused, the first version removes the upload. *)
Lemma first_version_removes_upload_witness :
  path Sample.upload
    ∉ files (VariantA.transcribe Sample.node Sample.meeting_refused
               Sample.request Sample.world).2.
Proof.
  apply (first_version_removes_upload Sample.node Sample.meeting_refused Sample.upload
           Sample.fields Sample.world).
  - discriminate.
  - intros _. reflexivity.
Defined.

(** In the second version the upload outlives the request on one path
    only, the return on a failed meeting insert. *)
Theorem second_version_keeps_upload_on_meeting_failure_only rt env f b w :
  path f ≠ "" →
  (replace_backslashes (path f) ∈ files w → replace_backslashes (path f) = path f) →
  let run := VariantB.transcribe rt env {| file := Some f; body := b |} w in
  path f ∈ files run.2 →
  run.1 = Ok (res_status_json 500 (VObj [("error", VStr "Failed to create meeting record")])).
Proof.
  intros Hpath Hfixed.
  unfold VariantB.transcribe, VariantB.pipeline; cbn [file]; cbv zeta.
  unfold_monad. repeat step.
  all: try match goal with
      | H : VariantB.persist_dependents _ _ _ _ _ _ _ _ = (_, _) |- _ =>
          apply persist_dependents_files in H
      end.
  all: stage_facts; same_files.
  all: try no_path.
  all: try reflexivity.
  all: try (rewrite Hfixed by assumption).
  all: intros Hin; exfalso; exact (removed _ _ Hin).
Qed.

(** The meeting row refused, the upload of the example is still there. *)
Lemma second_version_keeps_upload_on_meeting_failure_only_witness :
  path Sample.upload
    ∈ files (VariantB.transcribe Sample.node Sample.meeting_refused
               Sample.request Sample.world).2
  ∧ (VariantB.transcribe Sample.node Sample.meeting_refused Sample.request Sample.world).1
    = Ok (res_status_json 500 (VObj [("error", VStr "Failed to create meeting record")])).
Proof.
  assert (Hkept : path Sample.upload
                    ∈ files (VariantB.transcribe Sample.node Sample.meeting_refused
                               Sample.request Sample.world).2) by stored.
  split; [exact Hkept |].
  apply (second_version_keeps_upload_on_meeting_failure_only Sample.node
           Sample.meeting_refused Sample.upload Sample.fields Sample.world).
  - discriminate.
  - intros _. reflexivity.
  - exact Hkept.
Defined.

(** * Further properties of the handler *)

(** ** The path of the upload *)

(** The normalised path has no backslash left and the length of the raw
    one; a path is its own normal form exactly when it has no backslash, so
    normalising twice changes nothing more. *)
Theorem fixed_path_has_no_backslash (p : string) :
  occurs backslash (replace_backslashes p) = false
  ∧ String.length (replace_backslashes p) = String.length p
  ∧ (occurs backslash p = false ↔ replace_backslashes p = p)
  ∧ replace_backslashes (replace_backslashes p) = replace_backslashes p.
Proof.
  assert (Hfix : ∀ q, occurs backslash q = false → replace_backslashes q = q).
  { induction q as [| c q IH]; cbn; [reflexivity |].
    intros H. apply orb_false_iff in H as [Hc Hq]. unfold backslash in Hc.
    rewrite Hc, (IH Hq). reflexivity. }
  assert (Hnone : ∀ q, occurs backslash (replace_backslashes q) = false).
  { induction q as [| c q IH]; cbn; [reflexivity |].
    rewrite IH, orb_false_r.
    destruct (Ascii.eqb c (ascii_of_nat 92)) eqn:Hc; [reflexivity | exact Hc]. }
  split; [apply Hnone |]. split; [| split].
  - induction p as [| c p IH]; cbn; [reflexivity | f_equal; exact IH].
  - split; [apply Hfix |]. intros H. rewrite <- H. apply Hnone.
  - apply Hfix, Hnone.
Qed.

(** ** The upload cannot be read, the transcription fails *)

(** When the normalised path names no file of the temporary store, each of the
    three versions answers 500 with the error of the failed read as details,
    has called nothing outside, and has removed no file but, at most, the one
    the raw path names. *)
Theorem unreadable_upload_makes_no_call rt env f b w :
  replace_backslashes (path f) ∉ files w →
  Forall (λ transcribe : Runtime → Env → Request → M Response,
            let run := transcribe rt env {| file := Some f; body := b |} w in
            run.1 = Ok (failure rt (error_value rt (NoSuchFile (replace_backslashes (path f)))))
            ∧ trace run.2 = trace w
            ∧ files w ∖ {[ path f ]} ⊆ files run.2
            ∧ files run.2 ⊆ files w)
         versions.
Proof.
  intros Hfile. unfold versions, failure.
  repeat constructor;
    unfold VariantA.transcribe, VariantA.pipeline, VariantB.transcribe, VariantB.pipeline,
      VariantC.transcribe, VariantC.pipeline;
    cbn [file]; cbv zeta; unfold_monad;
    (destruct (decide _) as [? | _]; [contradiction |]);
    destruct (negb _); cbn [fst snd files trace]; repeat split;
    first [reflexivity | apply subseteq_difference_l; reflexivity].
Qed.

(** The store of the example emptied, the read of the upload fails. *)
Lemma unreadable_upload_makes_no_call_witness :
  (VariantA.transcribe Sample.node Sample.healthy Sample.request
     {| files := ∅; trace := [] |}).1
  = Ok (res_status_json 500
          (VObj [("error", VStr "Failed to process meeting");
                 ("details", VStr "ENOENT: no such file or directory, open 'tmp/3f2a9c'")])).
Proof.
  pose proof (unreadable_upload_makes_no_call Sample.node Sample.healthy Sample.upload
                Sample.fields {| files := ∅; trace := [] |}) as H.
  apply Forall_cons_1 in H as [[H _] _]; [exact H |].
  apply not_elem_of_empty.
Defined.

(** When the transcription call throws, or answers null or undefined, each
    of the three versions answers 500 with the error as details, having made
    that one call, and removes the upload. *)
Theorem transcription_failure_is_fatal rt env f b w :
  replace_backslashes (path f) ∈ files w →
  let req := {| file := Some f; body := b |} in
  let calls := [EvTranscribe "whisper-large-v3-turbo"] in
  (∀ e, transcription_answer env = Throws e →
        Forall (λ transcribe : Runtime → Env → Request → M Response,
                  fails_after rt e calls f (transcribe rt env req w) w) versions)
  ∧ (∀ t, transcription_answer env = Returns t → nullish t = true →
          Forall (λ transcribe : Runtime → Env → Request → M Response,
                    fails_after rt (error_value rt (ReadOfNullish t "duration")) calls f
                      (transcribe rt env req w) w) versions).
Proof.
  intros Hfile req calls. subst req calls. unfold versions, fails_after, failure.
  split; [intros e He | intros t Ht Hnull];
    repeat constructor;
    unfold VariantA.transcribe, VariantA.pipeline, VariantB.transcribe, VariantB.pipeline,
      VariantC.transcribe, VariantC.pipeline;
    cbn [file]; cbv zeta; unfold get; unfold_monad;
    (destruct (decide _) as [_ | ?]; [| contradiction]);
    rewrite ?He, ?Ht; cbn [fst snd files trace]; rewrite ?Hnull;
    destruct (negb _) eqn:Hp; cbn [fst snd files trace];
    first [reflexivity | intros ?; try reflexivity; no_path].
Qed.

(** The transcription call of the example times out. *)
Lemma transcription_failure_is_fatal_witness :
  fails_after Sample.node (mk_error "upstream timeout") [EvTranscribe "whisper-large-v3-turbo"]
    Sample.upload
    (VariantB.transcribe Sample.node
       (Sample.outside (Throws (mk_error "upstream timeout")) Sample.inserted Sample.inserted
          Sample.inserted Sample.inserted)
       Sample.request Sample.world)
    Sample.world.
Proof.
  destruct (transcription_failure_is_fatal Sample.node
              (Sample.outside (Throws (mk_error "upstream timeout")) Sample.inserted
                 Sample.inserted Sample.inserted Sample.inserted)
              Sample.upload Sample.fields Sample.world) as [Hthrows _]; [stored |].
  specialize (Hthrows _ eq_refl).
  apply Forall_cons_1 in Hthrows as [_ Hthrows].
  apply Forall_cons_1 in Hthrows as [Hthrows _].
  exact Hthrows.
Defined.

(** ** A transcription without segments *)

Lemma segment_tone_none rt env :
  VariantA.segment_tone rt env [] = mret ([], [])
  ∧ VariantB.segment_tone rt env [] = mret ([], [])
  ∧ VariantC.segment_tone rt env [] = mret ([], []).
Proof. repeat split. Qed.

Lemma persist_meeting_bare rt env f t tone emap w o w' :
  VariantA.persist_meeting rt env f t [] tone emap [] w = (o, w') →
  only_appends (eq (EvInsert "meetings" (VariantA.meeting_row rt env f t tone))) w w'.
Proof.
  unfold VariantA.persist_meeting. unfold_monad.
  change (bool_decide (0 < length (@nil value))) with false.
  repeat step; intros H; pair_eq H; appended ltac:(reflexivity).
Qed.

Lemma persist_dependents_bare rt env fixedPath meetingId emap w o w' :
  VariantB.persist_dependents rt env fixedPath meetingId [] emap [] w = (o, w') →
  appends (λ _, False) w w'.
Proof.
  unfold VariantB.persist_dependents. unfold_monad.
  change (bool_decide (0 < length (@nil value))) with false.
  intros H. pair_eq H. appended ltac:(idtac).
Qed.

Ltac segment_table Htable :=
  unfold segment_tables in Htable;
  repeat (apply elem_of_cons in Htable as [Htable | Htable]; [subst |]);
  [.. | apply elem_of_nil in Htable; contradiction].

Lemma no_segments_A rt env f b w t :
  transcription_answer env = Returns t →
  segments_of t = [] →
  skips_segment_stage (VariantA.transcribe rt env {| file := Some f; body := b |} w) w.
Proof.
  intros Ht Hseg. destruct (segment_tone_none rt env) as (HA & _ & _).
  unfold skips_segment_stage, VariantA.transcribe, VariantA.pipeline; cbn [file]; cbv zeta.
  unfold_monad. repeat step; same_answer.
  all: rewrite ?Hseg in *.
  all: try match goal with
      | H : VariantA.segment_tone _ _ [] _ = _ |- _ => rewrite HA in H; pair_eq H
      end.
  all: cbn [fst snd] in *.
  all: repeat match goal with
      | H : VariantA.persist_meeting _ _ _ _ [] _ _ [] _ = (_, _) |- _ =>
          apply persist_meeting_bare in H; destruct H as [? H]
      end.
  all: stage_facts.
  all: (split; [| split]);
    [ intros model Hin; chase Hin; kinds Hin; first [assumption | discriminate Hin]
    | intros table rows Htable Hin; chase Hin; kinds Hin;
      first [ assumption
            | segment_table Htable; discriminate Hin ]
    | intros resp Hresp Hst;
      first [ discriminate Hresp
            | injection Hresp as <-;
              first [discriminate Hst | split; reflexivity] ] ].
Qed.

Lemma no_segments_B rt env f b w t :
  transcription_answer env = Returns t →
  segments_of t = [] →
  skips_segment_stage (VariantB.transcribe rt env {| file := Some f; body := b |} w) w.
Proof.
  intros Ht Hseg. destruct (segment_tone_none rt env) as (_ & HB & _).
  unfold skips_segment_stage, VariantB.transcribe, VariantB.pipeline; cbn [file]; cbv zeta.
  unfold_monad. repeat step; same_answer.
  all: rewrite ?Hseg in *.
  all: try match goal with
      | H : VariantB.segment_tone _ _ [] _ = _ |- _ => rewrite HB in H; pair_eq H
      end.
  all: cbn [fst snd] in *.
  all: repeat match goal with
      | H : VariantB.persist_dependents _ _ _ _ [] _ [] _ = (_, _) |- _ =>
          apply persist_dependents_bare in H
      end.
  all: stage_facts.
  all: (split; [| split]);
    [ intros model Hin; chase Hin; kinds Hin;
      first [assumption | discriminate Hin | contradiction]
    | intros table rows Htable Hin; chase Hin; kinds Hin;
      first [ assumption | contradiction
            | segment_table Htable; discriminate Hin ]
    | intros resp Hresp Hst;
      first [ discriminate Hresp
            | injection Hresp as <-;
              first [discriminate Hst | split; reflexivity] ] ].
Qed.

(** When the transcription has no segment (its [segments] is missing, is
    not an array, or is empty) the segment stage is skipped: the first and the
    second version make no segment-tone call, write to no per-segment table,
    and answer, when they answer 200, with empty [segments] and
    [emotion.segmentEmotions]. *)
Theorem no_segments_skips_segment_stage rt env f b w t :
  transcription_answer env = Returns t →
  segments_of t = [] →
  let req := {| file := Some f; body := b |} in
  skips_segment_stage (VariantA.transcribe rt env req w) w
  ∧ skips_segment_stage (VariantB.transcribe rt env req w) w.
Proof.
  intros Ht Hseg req. split.
  - apply (no_segments_A rt env f b w t Ht Hseg).
  - apply (no_segments_B rt env f b w t Ht Hseg).
Qed.

(** A transcription whose [segments] is a string has no segment. *)
Lemma no_segments_skips_segment_stage_witness :
  let t := VObj [("text", VStr "Hello team"); ("segments", VStr "n/a"); ("duration", VNum 30)] in
  let env := Sample.outside (Returns t) (Returns (Sample.completion Sample.tone_text))
               (Returns (Sample.completion (Sample.segments_text "0" "0.5")))
               (Returns (Sample.completion Sample.summary_text)) Sample.inserted in
  skips_segment_stage (VariantA.transcribe Sample.node env Sample.request Sample.world)
    Sample.world
  ∧ skips_segment_stage (VariantB.transcribe Sample.node env Sample.request Sample.world)
      Sample.world.
Proof.
  intros t env. unfold Sample.request.
  apply (no_segments_skips_segment_stage Sample.node env Sample.upload Sample.fields
           Sample.world t); reflexivity.
Defined.

(** ** A tone call throws *)

Lemma overall_tone_throws rt env model text w o w' :
  js_lt rt (VNum 0) (prop text "length") = true →
  (∃ e, chat_answer env OverallTone = Throws e) →
  overall_tone rt env model text w = (o, w') → ∃ e, o = Thrown e.
Proof.
  intros Hlen [e He]. unfold overall_tone. rewrite Hlen. unfold_monad. rewrite He.
  intros H. pair_eq H. eexists. reflexivity.
Qed.

Lemma segment_tone_throws rt env segments :
  segments ≠ [] →
  (∃ e, chat_answer env SegmentTone = Throws e) →
  ∀ w o w',
    (VariantA.segment_tone rt env segments w = (o, w') → ∃ e, o = Thrown e)
    ∧ (VariantB.segment_tone rt env segments w = (o, w') → ∃ e, o = Thrown e).
Proof.
  intros Hseg [e He] w o w'.
  destruct segments as [| s segments]; [contradiction |].
  unfold VariantA.segment_tone, VariantB.segment_tone.
  change (bool_decide (0 < length (s :: segments))) with true.
  unfold_monad. rewrite He.
  split; repeat step; intros H; pair_eq H; eexists; reflexivity.
Qed.

Ltac stage_throws Hthrows :=
  destruct Hthrows as [[Hlen Hcall] | [Hsome Hcall]];
  repeat match goal with
    | H : overall_tone _ _ _ _ _ = (Ok _, _) |- _ =>
        destruct (overall_tone_throws _ _ _ _ _ _ _ Hlen Hcall H); discriminate
    | H : VariantA.segment_tone _ _ _ _ = (Ok _, _) |- _ =>
        destruct (proj1 (segment_tone_throws _ _ _ Hsome Hcall _ _ _) H); discriminate
    | H : VariantB.segment_tone _ _ _ _ = (Ok _, _) |- _ =>
        destruct (proj2 (segment_tone_throws _ _ _ Hsome Hcall _ _ _) H); discriminate
    end.

(** A tone call that throws is fatal before anything is stored: when the
    transcript is not empty and the overall-tone call throws, or there are
    segments and the segment-tone call throws, the first and the second version
    answer 500 and make no insert at all. *)
Theorem tone_call_failure_writes_nothing rt env f b w t :
  transcription_answer env = Returns t →
  tone_call_throws rt env t →
  let req := {| file := Some f; body := b |} in
  fails_without_writes (VariantA.transcribe rt env req w) w
  ∧ fails_without_writes (VariantB.transcribe rt env req w) w.
Proof.
  intros Ht Hthrows req. subst req.
  unfold fails_without_writes, VariantA.transcribe, VariantA.pipeline,
    VariantB.transcribe, VariantB.pipeline; cbn [file]; cbv zeta.
  unfold_monad. split.
  - repeat step; same_answer.
    all: try solve [stage_throws Hthrows].
    all: stage_facts.
    all: (split; [eexists; split; reflexivity |]).
    all: intros table rows Hin; chase Hin; kinds Hin;
      first [assumption | discriminate Hin].
  - repeat step; same_answer.
    all: try solve [stage_throws Hthrows].
    all: stage_facts.
    all: (split; [eexists; split; reflexivity |]).
    all: intros table rows Hin; chase Hin; kinds Hin;
      first [assumption | discriminate Hin].
Qed.

(** The segment-tone call of the example fails on the network. *)
Lemma tone_call_failure_writes_nothing_witness :
  let env := Sample.outside (Returns Sample.transcription)
               (Returns (Sample.completion Sample.tone_text))
               (Throws (mk_error "fetch failed"))
               (Returns (Sample.completion Sample.summary_text)) Sample.inserted in
  tone_call_throws Sample.node env Sample.transcription
  ∧ fails_without_writes (VariantA.transcribe Sample.node env Sample.request Sample.world)
      Sample.world
  ∧ fails_without_writes (VariantB.transcribe Sample.node env Sample.request Sample.world)
      Sample.world.
Proof.
  intros env.
  assert (Hthrows : tone_call_throws Sample.node env Sample.transcription).
  { right. split; [discriminate | eexists; reflexivity]. }
  split; [exact Hthrows |]. unfold Sample.request.
  apply (tone_call_failure_writes_nothing Sample.node env Sample.upload Sample.fields
           Sample.world Sample.transcription); [reflexivity | exact Hthrows].
Defined.

(** ** The summary call throws *)

(** In the first version, when the summary call throws after the meeting
    has been stored, the handler answers 500 with the error as details: the
    [meetings] row, and the per-segment rows written with it, are in the store
    of a request that is answered as failed; no summary or task is written and
    the upload is removed. *)
Theorem summary_call_failure_after_store
  rt env f b w t tone w2 collected w3 meetingId w4 e :
  replace_backslashes (path f) ∈ files w →
  transcription_answer env = Returns t →
  nullish t = false →
  overall_tone rt env "llama-3.1-70b-versatile" (transcriptText t)
    {| files := files w; trace := trace w ++ [EvTranscribe "whisper-large-v3-turbo"] |}
  = (Ok tone, w2) →
  VariantA.segment_tone rt env (segments_of t) w2 = (Ok collected, w3) →
  VariantA.persist_meeting rt env f t (segments_of t) tone collected.1 collected.2 w3
  = (Ok meetingId, w4) →
  chat_answer env SummaryTasks = Throws e →
  let run := VariantA.transcribe rt env {| file := Some f; body := b |} w in
  run.1 = Ok (failure rt e)
  ∧ trace run.2 = trace w4 ++ [EvChat SummaryTasks "llama-3.1-70b-versatile"]
  ∧ EvInsert "meetings" (VariantA.meeting_row rt env f t tone) ∈ trace run.2
  ∧ (path f ≠ "" → path f ∉ files run.2).
Proof.
  intros Hfile Ht Hnull Htone Hseg Hpersist Hc run. subst run.
  unfold VariantA.transcribe, VariantA.pipeline.
  enter Hfile Ht Hnull. rewrite Htone, Hseg, Hpersist. tidy.
  unfold VariantA.summarise. unfold_monad. tidy. rewrite Hc. tidy.
  apply persist_meeting_inserts in Hpersist.
  destruct (negb _) eqn:Hp; tidy; repeat split.
  - apply elem_of_app. left. exact Hpersist.
  - intros _. apply removed.
  - apply elem_of_app. left. exact Hpersist.
  - intros ?. no_path.
Qed.

(** The summary call of the example fails on the network: the answer is
    500 and the meeting row is in the store. *)
Lemma summary_call_failure_after_store_witness :
  let env := Sample.outside (Returns Sample.transcription)
               (Returns (Sample.completion Sample.tone_text))
               (Returns (Sample.completion (Sample.segments_text "0" "0.5")))
               (Throws (mk_error "fetch failed")) Sample.inserted in
  let run := VariantA.transcribe Sample.node env Sample.request Sample.world in
  run.1 = Ok (res_status_json 500
                (VObj [("error", VStr "Failed to process meeting");
                       ("details", VStr "fetch failed")]))
  ∧ EvInsert "meetings"
      (VObj [("title", VStr "standup.wav"); ("meeting_type", VStr "generic");
             ("duration", VNum 30); ("mood_score", VNum 0.75);
             ("dominant_emotion", VStr "confident");
             ("emotion_breakdown", VObj [("confident", VNum 100)])])
    ∈ trace run.2.
Proof.
  intros env run. subst run. unfold Sample.request.
  edestruct (summary_call_failure_after_store Sample.node env Sample.upload Sample.fields
               Sample.world Sample.transcription) as (Hresp & _ & Hrow & _).
  1: stored.
  1, 2: reflexivity.
  1, 2, 3: evaluated.
  1: reflexivity.
  split; [exact Hresp | exact Hrow].
Defined.

(** ** Rows that name their meeting *)

Lemma map_indexed_Forall {A : Type} (f : nat → value → Outcome A) (Q : A → Prop)
  (l : list value) :
  (∀ i x y, f i x = Ok y → Q y) →
  ∀ i ys, map_indexed f i l = Ok ys → Forall Q ys.
Proof.
  intros Hf. induction l as [| x l IH]; intros i ys H; cbn in H.
  - injection H as <-. constructor.
  - destruct (f i x) as [y |] eqn:Hy; cbn in H; [| discriminate].
    destruct (map_indexed f (S i) l) as [ys' |] eqn:E; cbn in H; [| discriminate].
    injection H as <-. constructor; [eapply Hf, Hy | eapply IH, E].
Qed.

Lemma assoc_set_field k v fields : assoc k (set_field k v fields) = v.
Proof.
  induction fields as [| [k' v'] fields IH]; cbn.
  - rewrite String.eqb_refl. reflexivity.
  - destruct (String.eqb k k') eqn:E; cbn; rewrite E; [reflexivity | exact IH].
Qed.

Lemma with_meeting_id_references meetingId (rows : list value) :
  references meetingId (VArr (VariantB.with_meeting_id meetingId <$> rows)).
Proof.
  cbn. apply Forall_fmap, Forall_true. intros [| | | | | |]; cbn; try reflexivity.
  apply assoc_set_field.
Qed.

Lemma emotion_rows_reference meetingId (rows : list value) :
  references meetingId (VArr (VariantA.emotion_row meetingId <$> rows)).
Proof. cbn. apply Forall_fmap, Forall_true. intros e. reflexivity. Qed.

Lemma transcript_rows_reference rt meetingId emap segments rows :
  (map_indexed (VariantA.transcript_row rt meetingId emap) 0 segments = Ok rows
   ∨ map_indexed (VariantB.transcript_row rt meetingId emap) 0 segments = Ok rows) →
  references meetingId (VArr rows).
Proof.
  intros [H | H]; cbn; eapply map_indexed_Forall; try exact H; cbn;
    intros i x y; unfold VariantA.transcript_row, VariantB.transcript_row, get;
    destruct (nullish x); cbn; intros Hy; try discriminate Hy;
    injection Hy as <-; reflexivity.
Qed.

Lemma task_rows_reference rt meetingId items rows :
  map_indexed (λ _, VariantA.task_row rt meetingId) 0 items = Ok rows →
  references meetingId (VArr rows).
Proof.
  intros H; cbn; eapply map_indexed_Forall; try exact H; cbn.
  intros i x y; unfold VariantA.task_row, get.
  destruct (nullish x); cbn; intros Hy; try discriminate Hy.
  injection Hy as <-; reflexivity.
Qed.

(** Stages 4 to 6 of the first version: the meeting row, then rows that name
    the identifier answered for it, which is the one handed over. *)
Lemma persist_meeting_references rt env f t segments tone emap rowsDB w o w' :
  VariantA.persist_meeting rt env f t segments tone emap rowsDB w = (o, w') →
  let meeting := VariantA.meeting_row rt env f t tone in
  (∀ meetingId, o = Ok meetingId →
     ∃ answer, insert_answer env "meetings" meeting = Returns answer
               ∧ meetingId = stored_id answer)
  ∧ appends (λ ev, ev = EvInsert "meetings" meeting
                   ∨ ∃ answer, insert_answer env "meetings" meeting = Returns answer
                               ∧ dependent_of (stored_id answer) ev) w w'.
Proof.
  unfold VariantA.persist_meeting, get, stored_id. unfold_monad.
  repeat step; intros H; pair_eq H; cbv zeta; split.
  all: try (intros id Hid; first [discriminate Hid | injection Hid as <-];
            eexists; split; reflexivity).
  all: appended ltac:(first
    [ left; reflexivity
    | right; eexists; split; [reflexivity |]; eexists _, _; split; [reflexivity |];
      first [ apply emotion_rows_reference
            | eapply transcript_rows_reference; left; eassumption ] ]).
Qed.

Lemma summarise_references rt env meetingId w o w' :
  VariantA.summarise rt env meetingId w = (o, w') →
  appends (λ ev, ev = EvChat SummaryTasks "llama-3.1-70b-versatile"
                 ∨ dependent_of meetingId ev) w w'.
Proof.
  unfold VariantA.summarise. unfold_monad.
  repeat step; intros H; pair_eq H.
  all: appended ltac:(first
    [ left; reflexivity
    | right; eexists _, _; split; [reflexivity |];
      first [ reflexivity | eapply task_rows_reference; eassumption ] ]).
Qed.

Lemma persist_dependents_references rt env fixedPath meetingId segments emap rows w o w' :
  VariantB.persist_dependents rt env fixedPath meetingId segments emap rows w = (o, w') →
  appends (dependent_of meetingId) w w'.
Proof.
  unfold VariantB.persist_dependents. unfold_monad.
  repeat step; intros H; pair_eq H.
  all: appended ltac:(eexists _, _; split; [reflexivity |];
      first [ apply with_meeting_id_references
            | eapply transcript_rows_reference; right; eassumption ]).
Qed.

(** The facts of the persisting stages, from the equations of their runs. *)
Ltac reference_facts :=
  repeat match goal with
    | H : VariantA.persist_meeting _ _ _ _ _ _ _ _ _ = (_, _) |- _ =>
        let Hin := fresh "Hmeeting" in
        let Hid := fresh "Hid" in
        pose proof (persist_meeting_inserts _ _ _ _ _ _ _ _ _ _ _ H) as Hin;
        apply persist_meeting_references in H; cbv zeta in H; destruct H as [Hid H]
    | H : VariantA.summarise _ _ _ _ = (_, _) |- _ =>
        apply summarise_references in H
    | H : VariantB.persist_dependents _ _ _ _ _ _ _ _ = (_, _) |- _ =>
        apply persist_dependents_references in H
    end.

(** An event of an earlier trace is in every later one. *)
Ltac kept :=
  cbn [fst snd trace];
  repeat first
    [ eassumption
    | match goal with
      | H : appends _ _ ?w' |- _ ∈ trace ?w' => apply (appends_keeps _ _ _ _ H); cbn [trace]
      | |- _ ∈ _ ++ [_] => first [ apply elem_of_app; right; apply list_elem_of_singleton;
                                   reflexivity
                                 | apply elem_of_app; left ]
      end ].

(** A dependent insert met in the trace names the meeting the run inserted. *)
Ltac referenced :=
  match goal with
  | H : dependent_of _ (EvInsert _ _) |- _ =>
      let Heq := fresh "Heq" in
      let Href := fresh "Href" in
      destruct H as (? & ? & Heq & Href); injection Heq as <- <-;
      eexists _, _; split; [kept | split; [eassumption | exact Href]]
  end.

Lemma references_A rt env f b w :
  dependents_reference_meeting env
    (VariantA.transcribe rt env {| file := Some f; body := b |} w) w.
Proof.
  unfold dependents_reference_meeting, VariantA.transcribe, VariantA.pipeline;
    cbn [file]; cbv zeta.
  unfold_monad. repeat step.
  all: reference_facts; stage_facts.
  all: repeat match goal with
      | H : ∀ id, Ok ?a = Ok id → _ |- _ => destruct (H a eq_refl) as (? & ? & ->); clear H
      | H : ∀ id, Thrown _ = Ok id → _ |- _ => clear H
      end.
  all: intros table rows Hne Hin; chase Hin; kinds Hin.
  all: try (left; assumption).
  all: try discriminate Hin.
  all: try (injection Hin as -> ->; congruence).
  all: right.
  all: repeat match goal with
      | H1 : insert_answer _ "meetings" ?m = Returns ?x,
        H2 : insert_answer _ "meetings" ?m = Returns ?y |- _ =>
          assert (y = x) as -> by congruence; clear H2
      end.
  all: referenced.
Qed.

Lemma references_B rt env f b w :
  dependents_reference_meeting env
    (VariantB.transcribe rt env {| file := Some f; body := b |} w) w.
Proof.
  unfold dependents_reference_meeting, VariantB.transcribe, VariantB.pipeline;
    cbn [file]; cbv zeta.
  unfold get. unfold_monad. repeat step.
  all: reference_facts; stage_facts.
  all: intros table rows Hne Hin; chase Hin; kinds Hin.
  all: try (left; assumption).
  all: try discriminate Hin.
  all: try (injection Hin as -> ->; congruence).
  all: right.
  all: referenced.
Qed.

(** Every insert the first and the second version make into a table other
    than [meetings] -- the rows of [transcripts], [emotions] or
    [emotion_segments], the row of [summaries], the rows of [tasks] -- carries as
    [meeting_id] the identifier the datastore answered to the [meetings] insert
    of the same run. *)
Theorem dependent_rows_reference_meeting rt env f b w :
  let req := {| file := Some f; body := b |} in
  dependents_reference_meeting env (VariantA.transcribe rt env req w) w
  ∧ dependents_reference_meeting env (VariantB.transcribe rt env req w) w.
Proof. split; [apply references_A | apply references_B]. Qed.

(** With every call answering well, the rows the first version writes to
    [transcripts] name the meeting "m-1" the datastore answered. *)
Lemma dependent_rows_reference_meeting_witness :
  references (VStr "m-1")
    (VArr [VObj [("meeting_id", VStr "m-1"); ("start", VStr "0"); ("end", VStr "12.5");
                 ("text", VStr "Hello team"); ("speaker", VNull);
                 ("emotion", VStr "happy"); ("emotion_score", VNum 0.5)]]).
Proof.
  destruct (dependent_rows_reference_meeting Sample.node Sample.healthy Sample.upload
              Sample.fields Sample.world) as [HA _].
  edestruct HA as [Hbefore | (meeting & answer & _ & Hanswer & Hrows)].
  - instantiate (1 := "transcripts"). discriminate.
  - evaluate (trace (VariantA.transcribe Sample.node Sample.healthy
                       {| file := Some Sample.upload; body := Sample.fields |}
                       Sample.world).2) Htrace.
    rewrite Htrace. listed.
  - inversion Hbefore.
  - cbn in Hanswer. injection Hanswer as <-. exact Hrows.
Defined.

(** ** The order of the calls *)

Lemma ordered_bounds (lo hi lo' hi' : nat) places :
  ordered lo hi places = true → (lo' ≤ lo)%nat → (hi ≤ hi')%nat →
  ordered lo' hi' places = true.
Proof.
  revert lo lo'. induction places as [| n rest IH]; intros lo lo' H Hlo Hhi; cbn in *;
    [reflexivity |].
  apply andb_true_iff in H as [H Hrest]. apply andb_true_iff in H as [H1 H2].
  apply Nat.leb_le in H1, H2.
  rewrite (IH (S n) (S n) Hrest) by lia.
  rewrite andb_true_r. apply andb_true_iff. split; apply Nat.leb_le; lia.
Qed.

Lemma ordered_app (lo mid hi : nat) l1 l2 :
  ordered lo mid l1 = true → ordered (S mid) hi l2 = true →
  (lo ≤ S mid)%nat → (mid ≤ hi)%nat →
  ordered lo hi (l1 ++ l2) = true.
Proof.
  revert lo. induction l1 as [| n rest IH]; intros lo H1 H2 Hlo Hmid; cbn in *.
  - apply (ordered_bounds (S mid) hi); [exact H2 | lia | lia].
  - apply andb_true_iff in H1 as [H Hrest]. apply andb_true_iff in H as [Ha Hb].
    apply Nat.leb_le in Ha, Hb.
    rewrite (IH (S n) Hrest H2) by lia. rewrite andb_true_r.
    apply andb_true_iff. split; apply Nat.leb_le; lia.
Qed.

Lemma extends_refl (lo hi : nat) w w' : trace w' = trace w → extends lo hi w w'.
Proof. intros H. exists []. rewrite H, app_nil_r. split; reflexivity. Qed.

Lemma extends_emit (lo hi : nat) w w' ev :
  trace w' = trace w ++ [ev] → (lo ≤ phase ev)%nat → (phase ev ≤ hi)%nat →
  extends lo hi w w'.
Proof.
  intros H Hlo Hhi. exists [ev]. split; [exact H |]. cbn.
  rewrite andb_true_r. apply andb_true_iff. split; apply Nat.leb_le; assumption.
Qed.

Lemma extends_lower (lo lo' hi : nat) w w' :
  extends lo hi w w' → (lo' ≤ lo)%nat → extends lo' hi w w'.
Proof.
  intros (evs & Ht & Ho) Hlo. exists evs. split; [exact Ht |].
  apply (ordered_bounds lo hi); [exact Ho | exact Hlo | lia].
Qed.

Lemma extends_trans (lo mid hi : nat) w w' w'' :
  extends lo mid w w' → extends (S mid) hi w' w'' →
  (lo ≤ S mid)%nat → (mid ≤ hi)%nat →
  extends lo hi w w''.
Proof.
  intros (evs & Ht & Ho) (evs' & Ht' & Ho') Hlo Hmid. exists (evs ++ evs'). split.
  - rewrite Ht', Ht, app_assoc. reflexivity.
  - rewrite fmap_app. apply (ordered_app lo mid hi); assumption.
Qed.

(** A stage's run, from the calls it may make, last first. *)
Ltac staged :=
  unfold_monad; repeat step; intros H; pair_eq H;
  unfold extends; cbn [trace]; rewrite <- ?app_assoc;
  first [ exists []; split; [symmetry; apply app_nil_r | reflexivity]
        | eexists; split; [reflexivity | reflexivity] ].

Lemma overall_tone_extends rt env model text w o w' :
  overall_tone rt env model text w = (o, w') → extends 1 1 w w'.
Proof. unfold overall_tone. staged. Qed.

Lemma segment_tone_extends rt env segments w o w' :
  (VariantA.segment_tone rt env segments w = (o, w') → extends 2 2 w w')
  ∧ (VariantB.segment_tone rt env segments w = (o, w') → extends 2 2 w w')
  ∧ (VariantC.segment_tone rt env segments w = (o, w') → extends 2 2 w w').
Proof.
  unfold VariantA.segment_tone, VariantB.segment_tone, VariantC.segment_tone.
  repeat split; staged.
Qed.

Lemma persist_meeting_extends rt env f t segments tone emap rowsDB w o w' :
  VariantA.persist_meeting rt env f t segments tone emap rowsDB w = (o, w') →
  extends 3 5 w w'.
Proof. unfold VariantA.persist_meeting. staged. Qed.

Lemma summarise_extends rt env meetingId w o w' :
  VariantA.summarise rt env meetingId w = (o, w') → extends 6 8 w w'.
Proof. unfold VariantA.summarise. staged. Qed.

Lemma persist_dependents_extends rt env fixedPath meetingId segments emap rows w o w' :
  VariantB.persist_dependents rt env fixedPath meetingId segments emap rows w = (o, w') →
  extends 4 5 w w'.
Proof. unfold VariantB.persist_dependents. staged. Qed.

Ltac order_facts :=
  repeat match goal with
    | H : overall_tone _ _ _ _ _ = (_, _) |- _ => apply overall_tone_extends in H
    | H : VariantA.segment_tone _ _ _ _ = (_, _) |- _ =>
        apply (proj1 (segment_tone_extends _ _ _ _ _ _)) in H
    | H : VariantB.segment_tone _ _ _ _ = (_, _) |- _ =>
        apply (proj1 (proj2 (segment_tone_extends _ _ _ _ _ _))) in H
    | H : VariantC.segment_tone _ _ _ _ = (_, _) |- _ =>
        apply (proj2 (proj2 (segment_tone_extends _ _ _ _ _ _))) in H
    | H : VariantA.persist_meeting _ _ _ _ _ _ _ _ _ = (_, _) |- _ =>
        apply persist_meeting_extends in H
    | H : VariantA.summarise _ _ _ _ = (_, _) |- _ => apply summarise_extends in H
    | H : VariantB.persist_dependents _ _ _ _ _ _ _ _ = (_, _) |- _ =>
        apply persist_dependents_extends in H
    end.

(** From world to world along the stages that ran, to the last one. *)
Ltac chain :=
  cbn [fst snd trace];
  lazymatch goal with
  | H : extends ?a ?b ?w ?w' |- extends ?lo ?d ?w _ =>
      apply (extends_trans lo b d w w');
      [apply (extends_lower a lo b); [exact H | lia] | chain | lia | lia]
  | H : extends _ _ {| files := ?fs; trace := trace ?w ++ [?ev] |} _ |- extends ?lo ?d ?w _ =>
      let n := eval cbv in (phase ev) in
      apply (extends_trans lo n d w {| files := fs; trace := trace w ++ [ev] |});
      [apply (extends_emit lo n _ _ ev); [reflexivity | cbn; lia | cbn; lia]
      | chain | lia | lia]
  | |- extends ?lo ?d ?w {| files := _; trace := trace ?w ++ [?ev] |} =>
      apply (extends_emit lo d _ _ ev); [reflexivity | cbn; lia | cbn; lia]
  | |- extends ?lo ?d ?w _ => apply extends_refl; reflexivity
  end.

Lemma after_transcription (last : nat) fs model w run :
  model = "whisper-large-v3-turbo" →
  extends 1 last {| files := fs; trace := trace w ++ [EvTranscribe model] |} run.2 →
  in_pipeline_order last run w.
Proof.
  intros -> (evs & Ht & Ho). right. exists evs. cbn [trace] in Ht.
  rewrite Ht, <- app_assoc. split; [reflexivity | exact Ho].
Qed.

Lemma pipeline_order_A rt env f b w :
  in_pipeline_order 8 (VariantA.transcribe rt env {| file := Some f; body := b |} w) w.
Proof.
  unfold VariantA.transcribe, VariantA.pipeline; cbn [file]; cbv zeta.
  unfold_monad. repeat step.
  all: order_facts.
  all: first [ left; reflexivity
             | apply (after_transcription 8 (files w) "whisper-large-v3-turbo");
               [reflexivity | chain] ].
Qed.

Lemma pipeline_order_B rt env f b w :
  in_pipeline_order 5 (VariantB.transcribe rt env {| file := Some f; body := b |} w) w.
Proof.
  unfold VariantB.transcribe, VariantB.pipeline; cbn [file]; cbv zeta.
  unfold_monad. repeat step.
  all: order_facts.
  all: first [ left; reflexivity
             | apply (after_transcription 5 (files w) "whisper-large-v3-turbo");
               [reflexivity | chain] ].
Qed.

Lemma pipeline_order_C rt env f b w :
  in_pipeline_order 2 (VariantC.transcribe rt env {| file := Some f; body := b |} w) w.
Proof.
  unfold VariantC.transcribe, VariantC.pipeline, VariantC.undeclared; cbn [file]; cbv zeta.
  unfold_monad. repeat step.
  all: order_facts.
  all: first [ left; reflexivity
             | apply (after_transcription 2 (files w) "whisper-large-v3-turbo");
               [reflexivity | chain] ].
Qed.

(** A request makes its calls in the order of the pipeline and each at most
    once: nothing is called before the transcription, then come the overall
    tone, the segment tone, the [meetings] insert, the [transcripts] insert,
    the [emotions] (or [emotion_segments]) insert and, in the first version,
    the summary call, the [summaries] insert and the [tasks] insert.  The
    second version stops at the per-segment rows; the version of part_000
    never gets past the two tone calls. *)
Theorem calls_follow_pipeline_order rt env f b w :
  let req := {| file := Some f; body := b |} in
  in_pipeline_order 8 (VariantA.transcribe rt env req w) w
  ∧ in_pipeline_order 5 (VariantB.transcribe rt env req w) w
  ∧ in_pipeline_order 2 (VariantC.transcribe rt env req w) w.
Proof.
  split; [apply pipeline_order_A | split; [apply pipeline_order_B | apply pipeline_order_C]].
Qed.

(** ** The label of a segment *)

(** What the [Map] holds after a sequence of [set], oldest first. *)
Lemma map_get_last (entry : value → value) (k : value) (entries : list value) :
  ∀ m found,
    map_get m k = match found with Some s => entry s | None => VUndef end →
    map_get (foldl (λ m s, map_set (prop s "index") (entry s) m) m entries) k
    = match foldl (λ found s, if same_value_zero (prop s "index") k then Some s else found)
              found entries with
      | Some s => entry s
      | None => VUndef
      end.
Proof.
  induction entries as [| s entries IH]; intros m found Hm; cbn; [exact Hm |].
  apply IH. cbn. destruct (same_value_zero (prop s "index") k); [reflexivity | exact Hm].
Qed.

Lemma forEach_collect_A rt payload entries :
  ∀ acc,
    forEach_caught (VariantA.collect_entry rt payload) entries acc
    = (foldl (λ m s, map_set (prop s "index")
                       (VObj [("emotion", js_or (prop s "emotion") (VStr "neutral"));
                              ("score", VariantA.checked_score rt (prop s "score"))]) m)
             acc.1 (heard entries),
       acc.2 ++ (VariantA.pushed_row rt payload <$> heard entries)).
Proof.
  induction entries as [| s entries IH]; intros [m rows]; cbn.
  - rewrite app_nil_r. reflexivity.
  - unfold VariantA.collect_entry at 1, get. destruct (nullish s); cbn.
    + rewrite app_nil_r. reflexivity.
    + rewrite IH. cbn. rewrite <- app_assoc. reflexivity.
Qed.

(** In the first version the label of a segment is the last one the
    analyzer gave it: when the analyzer's list names a position more than once,
    the row of [transcripts] for the segment at position [i] carries the
    emotion (defaulted to "neutral") and the score (checked) of the last entry
    heard whose index is [i], and null for both when there is none; the rows
    for [emotions] are one per entry heard, in order. *)
Theorem last_label_wins rt payload segCompletion meetingId i seg :
  nullish seg = false →
  let collected := VariantA.collect_segments rt payload segCompletion in
  let entries := match VariantA.segResults rt segCompletion with
                 | Ok l => heard l
                 | Thrown _ => []
                 end in
  collected.2 = (VariantA.pushed_row rt payload <$> entries)
  ∧ ∃ row,
      VariantA.transcript_row rt meetingId collected.1 i seg = Ok row
      ∧ prop row "emotion"
        = match last_labelled (VNum (js_nat i)) entries with
          | Some s => js_or (prop s "emotion") (VStr "neutral")
          | None => VNull
          end
      ∧ prop row "emotion_score"
        = match last_labelled (VNum (js_nat i)) entries with
          | Some s => VariantA.checked_score rt (prop s "score")
          | None => VNull
          end.
Proof.
  intros Hseg collected entries. subst collected entries.
  unfold VariantA.collect_segments, VariantA.transcript_row, get. rewrite Hseg.
  destruct (VariantA.segResults rt segCompletion) as [l |]; cbn.
  - rewrite forEach_collect_A. cbn [fst snd app]. split; [reflexivity |].
    eexists. split; [reflexivity |]. cbn.
    rewrite (map_get_last _ (VNum (js_nat i)) (heard l) [] None eq_refl).
    unfold last_labelled. destruct (foldl _ None (heard l)); split; reflexivity.
  - split; [reflexivity |]. eexists. split; [reflexivity |]. split; reflexivity.
Qed.

(** The analyzer labels the first segment twice, "stressed" and then
    "happy" with a score out of range: two rows go to [emotions] and the
    transcript row says "happy", 0.5. *)
Lemma last_label_wins_witness :
  let answer :=
    VObj [("segments",
           VArr [VObj [("index", VNum 0); ("emotion", VStr "stressed"); ("score", VNum 0.75)];
                 VObj [("index", VNum 0); ("emotion", VStr "happy"); ("score", VNum 1.5)]])] in
  let rt := {| JSON_parse := λ _, Some answer;
               String_of := Sample.text_of;
               StringToNumber := StringToNumber Sample.node;
               Math_round := Sample.round;
               error_value := Sample.thrown |} in
  let collected := VariantA.collect_segments rt [] (Sample.completion "...") in
  length collected.2 = 2
  ∧ ∃ row,
      VariantA.transcript_row rt (VStr "m-1") collected.1 0 Sample.segment = Ok row
      ∧ prop row "emotion" = VStr "happy"
      ∧ prop row "emotion_score" = VNum 0.5.
Proof.
  intros answer rt collected.
  destruct (last_label_wins rt [] (Sample.completion "...") (VStr "m-1") 0 Sample.segment
              eq_refl) as (Hrows & row & Hrow & Hemotion & Hscore).
  fold collected in Hrows, Hrow. split.
  - rewrite Hrows. reflexivity.
  - exists row. split; [exact Hrow |]. split; [exact Hemotion | exact Hscore].
Defined.

Lemma forEach_collect_B rt payload entries :
  ∀ acc,
    ∃ rows,
      forEach_caught (VariantB.collect_entry rt payload) entries acc
      = (foldl (λ m s, map_set (prop s "index")
                         (VObj [("emotion", js_or (prop s "emotion") (VStr "neutral"));
                                ("score", unchecked_score s)]) m)
               acc.1 (heard entries),
         acc.2 ++ rows)
      ∧ Forall2 (λ row s, prop row "meeting_id" = VNull
                          ∧ prop row "segment_index" = prop s "index"
                          ∧ prop row "score" = unchecked_score s)
          rows (heard entries).
Proof.
  induction entries as [| s entries IH]; intros [m rows]; cbn.
  - exists []. rewrite app_nil_r. split; [reflexivity | constructor].
  - unfold VariantB.collect_entry at 1, get. destruct (nullish s); cbn.
    + exists []. rewrite app_nil_r. split; [reflexivity | constructor].
    + edestruct IH as (rest & -> & Hrest). cbn [fst snd].
      eexists (_ :: rest). rewrite <- app_assoc. split; [reflexivity |].
      constructor; [| exact Hrest]. repeat split.
Qed.

(** In the second version the row of [transcripts] for the segment at
    position [i] carries the emotion of the last entry heard whose index is
    [i], and its score unless that score is 0 (or NaN), which is written as
    null; [emotion_segments] gets one row per entry heard, with the score as
    the analyzer gave it when it is a number, 0 included. *)
Theorem second_version_writes_zero_score_as_null rt payload seg meetingId i segment :
  nullish segment = false →
  let collected := VariantB.collect_segments rt payload seg in
  let entries := heard (analyzer_list rt seg) in
  Forall2 (λ row s, prop row "meeting_id" = VNull
                    ∧ prop row "segment_index" = prop s "index"
                    ∧ prop row "score" = unchecked_score s)
    collected.2 entries
  ∧ ∃ row,
      VariantB.transcript_row rt meetingId collected.1 i segment = Ok row
      ∧ prop row "emotion"
        = match last_labelled (VNum (js_nat i)) entries with
          | Some s => js_or (prop s "emotion") (VStr "neutral")
          | None => VNull
          end
      ∧ prop row "emotion_score"
        = match last_labelled (VNum (js_nat i)) entries with
          | Some s => if truthy (unchecked_score s) then unchecked_score s else VNull
          | None => VNull
          end.
Proof.
  intros Hseg collected entries. subst collected entries.
  unfold VariantB.collect_segments, analyzer_list, VariantB.transcript_row, get.
  rewrite Hseg.
  destruct (content ← content_of rt seg; parsed ← json_parse rt content;
            (if nullish parsed
             then Thrown (error_value rt (ReadOfNullish parsed "segments"))
             else Ok (prop parsed "segments"))) as [found |]; cbn.
  2: { split; [constructor |]. eexists. split; [reflexivity |]. split; reflexivity. }
  destruct (js_or found (VArr [])) as [| | | | | arr |]; cbn.
  all: try (split; [constructor |]; eexists; split; [reflexivity |]; split; reflexivity).
  destruct (forEach_collect_B rt payload arr ([], [])) as (rows & -> & Hrows).
  cbn [fst snd app]. split; [exact Hrows |].
  eexists. split; [reflexivity |]. cbn.
  rewrite (map_get_last _ (VNum (js_nat i)) (heard arr) [] None eq_refl).
  unfold last_labelled. destruct (foldl _ None (heard arr)) as [s |]; cbn.
  - split; [| reflexivity]. unfold js_or at 1.
    rewrite emotion_defaulted. reflexivity.
  - split; reflexivity.
Qed.

(** The analyzer scores the first segment 0: the row for [emotion_segments]
    keeps 0, the row for [transcripts] has a null score. *)
Lemma second_version_writes_zero_score_as_null_witness :
  let answer :=
    VObj [("segments",
           VArr [VObj [("index", VNum 0); ("emotion", VStr "neutral"); ("score", VNum 0)]])] in
  let rt := {| JSON_parse := λ _, Some answer;
               String_of := Sample.text_of;
               StringToNumber := StringToNumber Sample.node;
               Math_round := Sample.round;
               error_value := Sample.thrown |} in
  let collected := VariantB.collect_segments rt [] (Sample.completion "...") in
  Forall2 (λ row s, prop row "meeting_id" = VNull
                    ∧ prop row "segment_index" = prop s "index"
                    ∧ prop row "score" = unchecked_score s)
    collected.2
    [VObj [("index", VNum 0); ("emotion", VStr "neutral"); ("score", VNum 0)]]
  ∧ ∃ row,
      VariantB.transcript_row rt (VStr "m-1") collected.1 0 Sample.segment = Ok row
      ∧ prop row "emotion" = VStr "neutral"
      ∧ prop row "emotion_score" = VNull.
Proof.
  intros answer rt collected.
  destruct (second_version_writes_zero_score_as_null rt [] (Sample.completion "...")
              (VStr "m-1") 0 Sample.segment eq_refl)
    as (Hrows & row & Hrow & Hemotion & Hscore).
  fold collected in Hrows, Hrow. split.
  - exact Hrows.
  - exists row. split; [exact Hrow |]. split; [exact Hemotion | exact Hscore].
Defined.

(** ** The handler always answers *)


(** ** The meeting row *)

Lemma coalesced_defined v : js_coalesce v VNull ≠ VUndef.
Proof. destruct v; discriminate. Qed.

Lemma overall_tone_defined rt env model text w tone w' :
  overall_tone rt env model text w = (Ok tone, w') →
  moodScore tone ≠ VUndef ∧ dominantEmotion tone ≠ VUndef ∧ emotionBreakdown tone ≠ VUndef.
Proof.
  unfold overall_tone, parse_overall, get. unfold_monad. unfold mbind, Outcome_bind.
  repeat step; intros H; pair_eq H; cbn;
    repeat split; first [discriminate | apply coalesced_defined].
Qed.

Lemma defaulted (v : value) (s : string) : s ≠ "" → truthy (js_or v (VStr s)) = true.
Proof.
  intros Hs. unfold js_or. destruct (truthy v) eqn:E; [exact E |]. cbn.
  apply negb_true_iff, String.eqb_neq, Hs.
Qed.

Lemma meeting_row_A_well_formed rt env f t tone :
  moodScore tone ≠ VUndef ∧ dominantEmotion tone ≠ VUndef ∧ emotionBreakdown tone ≠ VUndef →
  well_formed_meeting (VariantA.meeting_row rt env f t tone).
Proof.
  intros (H1 & H2 & H3). unfold well_formed_meeting, VariantA.meeting_row. cbn.
  repeat split; try assumption. apply defaulted. discriminate.
Qed.

Lemma meeting_row_B_well_formed rt title meeting_type t text tone :
  moodScore tone ≠ VUndef ∧ dominantEmotion tone ≠ VUndef ∧ emotionBreakdown tone ≠ VUndef →
  let row := VariantB.meeting_row rt title meeting_type t text tone in
  well_formed_meeting row
  ∧ (prop row "mood_score" = VNull ∨ typeof_number (prop row "mood_score") = true).
Proof.
  intros (H1 & H2 & H3). unfold well_formed_meeting, VariantB.meeting_row, VariantB.scaled_mood.
  cbn. repeat split; try assumption; try (apply defaulted; discriminate).
  - destruct (truthy _); reflexivity.
  - destruct (negb _); discriminate.
  - destruct (negb _); [right | left]; reflexivity.
Qed.

Ltac tone_facts :=
  repeat match goal with
    | H : overall_tone _ _ _ _ _ = (Ok _, _) |- _ =>
        let Hd := fresh "Hdefined" in
        pose proof (overall_tone_defined _ _ _ _ _ _ _ H) as Hd;
        apply overall_tone_appends in H; destruct H as [? H]
    end.

(** Every row the first and the second version give to the [meetings]
    insert has a title and a meeting type that are not empty (the defaults
    step in), a numeric duration, and tone fields that are null or hold a
    value; in the second version the mood score written is null or a
    number. *)
Theorem meeting_rows_are_well_formed rt env f b w :
  let req := {| file := Some f; body := b |} in
  meetings_rows well_formed_meeting (VariantA.transcribe rt env req w) w
  ∧ meetings_rows (λ row, well_formed_meeting row
                          ∧ (prop row "mood_score" = VNull
                             ∨ typeof_number (prop row "mood_score") = true))
      (VariantB.transcribe rt env req w) w.
Proof.
  unfold meetings_rows. split.
  - unfold VariantA.transcribe, VariantA.pipeline; cbn [file]; cbv zeta.
    unfold_monad. repeat step.
    all: tone_facts; stage_facts.
    all: intros rows Hin; chase Hin; kinds Hin;
      first [ left; assumption | discriminate Hin
            | right; injection Hin as ->; apply meeting_row_A_well_formed; assumption ].
  - unfold VariantB.transcribe, VariantB.pipeline; cbn [file]; cbv zeta.
    unfold_monad. repeat step.
    all: tone_facts; stage_facts.
    all: intros rows Hin; chase Hin; kinds Hin;
      first [ left; assumption | discriminate Hin | congruence
            | right; injection Hin as ->; apply meeting_row_B_well_formed; assumption ].
Qed.

(** ** One transcript row per segment *)

Lemma map_indexed_Forall2 {A : Type} (f : nat → value → Outcome A) (R : A → value → Prop)
  (l : list value) :
  (∀ i x y, f i x = Ok y → R y x) →
  ∀ i ys, map_indexed f i l = Ok ys → Forall2 R ys l.
Proof.
  intros Hf. induction l as [| x l IH]; intros i ys H; cbn in H.
  - injection H as <-. constructor.
  - destruct (f i x) as [y |] eqn:Hy; cbn in H; [| discriminate].
    destruct (map_indexed f (S i) l) as [ys' |] eqn:E; cbn in H; [| discriminate].
    injection H as <-. constructor; [eapply Hf, Hy | eapply IH, E].
Qed.

Lemma transcript_rows_A rt meetingId emap segments rows :
  0 < length segments →
  map_indexed (VariantA.transcript_row rt meetingId emap) 0 segments = Ok rows →
  rows ≠ [] ∧ Forall2 (transcript_of rt "start" "end" "text" VNull) rows segments.
Proof.
  intros Hlen H. split.
  - apply map_indexed_length in H. destruct rows; [cbn in H; lia | discriminate].
  - eapply map_indexed_Forall2; [| exact H]. cbn.
    intros i x y. unfold VariantA.transcript_row, get.
    destruct (nullish x); cbn; intros Hy; [discriminate Hy |].
    injection Hy as <-. repeat split.
Qed.

Lemma transcript_rows_B rt meetingId emap segments rows :
  0 < length segments →
  map_indexed (VariantB.transcript_row rt meetingId emap) 0 segments = Ok rows →
  rows ≠ []
  ∧ Forall2 (transcript_of rt "start_time" "end_time" "transcript_text" (VStr "Unknown"))
      rows segments.
Proof.
  intros Hlen H. split.
  - apply map_indexed_length in H. destruct rows; [cbn in H; lia | discriminate].
  - eapply map_indexed_Forall2; [| exact H]. cbn.
    intros i x y. unfold VariantB.transcript_row, get.
    destruct (nullish x); cbn; intros Hy; [discriminate Hy |].
    injection Hy as <-. repeat split.
Qed.

Ltac transcripts_insert lemma :=
  intros ? Heq; first
    [ discriminate Heq
    | injection Heq as <-;
      match goal with
      | Hlen : bool_decide (0 < length _) = true, Hrows : map_indexed _ 0 _ = Ok _ |- _ =>
          apply bool_decide_eq_true in Hlen;
          destruct (lemma _ _ _ _ _ Hlen Hrows);
          eexists; split; [reflexivity | split; assumption]
      end ].

Lemma persist_meeting_transcripts rt env f t segments tone emap rowsDB w o w' :
  VariantA.persist_meeting rt env f t segments tone emap rowsDB w = (o, w') →
  appends (transcripts_event (transcript_of rt "start" "end" "text" VNull) segments) w w'.
Proof.
  unfold VariantA.persist_meeting. unfold_monad.
  repeat step; intros H; pair_eq H;
    appended ltac:(transcripts_insert transcript_rows_A).
Qed.

Lemma persist_dependents_transcripts rt env fixedPath meetingId segments emap rows w o w' :
  VariantB.persist_dependents rt env fixedPath meetingId segments emap rows w = (o, w') →
  appends (transcripts_event
             (transcript_of rt "start_time" "end_time" "transcript_text" (VStr "Unknown"))
             segments) w w'.
Proof.
  unfold VariantB.persist_dependents. unfold_monad.
  repeat step; intros H; pair_eq H;
    appended ltac:(transcripts_insert transcript_rows_B).
Qed.

Ltac transcript_facts :=
  repeat match goal with
    | H : VariantA.persist_meeting _ _ _ _ _ _ _ _ _ = (_, _) |- _ =>
        apply persist_meeting_transcripts in H
    | H : VariantB.persist_dependents _ _ _ _ _ _ _ _ = (_, _) |- _ =>
        apply persist_dependents_transcripts in H
    end.

(** The [transcripts] insert holds one row per segment of the
    transcription, in the order of the segments: the row carries the text of
    its segment and its start and end as strings, with a null speaker in the
    first version and "Unknown" in the second; the insert is made only when
    there is a segment. *)
Theorem one_transcript_row_per_segment rt env f b w :
  let req := {| file := Some f; body := b |} in
  transcripts_follow_segments (transcript_of rt "start" "end" "text" VNull) env
    (VariantA.transcribe rt env req w) w
  ∧ transcripts_follow_segments
      (transcript_of rt "start_time" "end_time" "transcript_text" (VStr "Unknown")) env
      (VariantB.transcribe rt env req w) w.
Proof.
  unfold transcripts_follow_segments. split.
  - unfold VariantA.transcribe, VariantA.pipeline; cbn [file]; cbv zeta.
    unfold_monad. repeat step.
    all: transcript_facts; stage_facts.
    all: intros rows Hin; chase Hin; kinds Hin;
      first [ left; assumption | discriminate Hin
            | right; destruct (Hin rows eq_refl) as (l & -> & Hl & Hrows);
              eexists _, l; repeat split; eassumption ].
  - unfold VariantB.transcribe, VariantB.pipeline; cbn [file]; cbv zeta.
    unfold_monad. repeat step.
    all: transcript_facts; stage_facts.
    all: intros rows Hin; chase Hin; kinds Hin;
      first [ left; assumption | discriminate Hin
            | right; destruct (Hin rows eq_refl) as (l & -> & Hl & Hrows);
              eexists _, l; repeat split; eassumption ].
Qed.

(** With every call answering well, the second version writes one row for
    the one segment of the example. *)
Lemma one_transcript_row_per_segment_witness :
  Forall2 (transcript_of Sample.node "start_time" "end_time" "transcript_text" (VStr "Unknown"))
    [VObj [("meeting_id", VStr "m-1"); ("start_time", VStr "0"); ("end_time", VStr "12.5");
           ("transcript_text", VStr "Hello team"); ("speaker", VStr "Unknown");
           ("emotion", VStr "happy"); ("emotion_score", VNum 0.5)]]
    [Sample.segment].
Proof.
  destruct (one_transcript_row_per_segment Sample.node Sample.healthy Sample.upload
              Sample.fields Sample.world) as [_ HB].
  edestruct HB as [Hbefore | (t & l & Ht & Hl & _ & Hrows)].
  - evaluate (trace (VariantB.transcribe Sample.node Sample.healthy
                       {| file := Some Sample.upload; body := Sample.fields |}
                       Sample.world).2) Htrace.
    rewrite Htrace. listed.
  - inversion Hbefore.
  - injection Ht as <-. injection Hl as <-. exact Hrows.
Defined.

(** ** The segment analysis does not parse *)

Lemma collect_segments_unparsable rt payload c :
  unparsable rt c →
  VariantA.collect_segments rt payload c = ([], [])
  ∧ VariantB.collect_segments rt payload c = ([], []).
Proof.
  intros [e He].
  unfold VariantA.collect_segments, VariantA.segResults, VariantB.collect_segments.
  destruct (content_of rt c) as [content |]; cbn in *; [| split; reflexivity].
  destruct (json_parse rt content); cbn in *; [discriminate He | split; reflexivity].
Qed.

Lemma segment_tone_unparsable rt env segments c w collected w' :
  chat_answer env SegmentTone = Returns c →
  unparsable rt c →
  (VariantA.segment_tone rt env segments w = (Ok collected, w') → collected = ([], []))
  ∧ (VariantB.segment_tone rt env segments w = (Ok collected, w') → collected = ([], [])).
Proof.
  intros Hc Hbad. unfold VariantA.segment_tone, VariantB.segment_tone. unfold_monad.
  rewrite Hc.
  split; repeat step; intros H; pair_eq H;
    first [ reflexivity
          | apply (collect_segments_unparsable rt _ c Hbad) ].
Qed.

Lemma unlabelled_rows rt meetingId segments rows :
  (map_indexed (VariantA.transcript_row rt meetingId []) 0 segments = Ok rows
   ∨ map_indexed (VariantB.transcript_row rt meetingId []) 0 segments = Ok rows) →
  Forall unlabelled rows.
Proof.
  intros [H | H]; eapply map_indexed_Forall; try exact H; cbn;
    intros i x y; unfold VariantA.transcript_row, VariantB.transcript_row, get;
    destruct (nullish x); cbn; intros Hy; try discriminate Hy;
    injection Hy as <-; split; reflexivity.
Qed.

Lemma persist_meeting_unlabelled rt env f t segments tone w o w' :
  VariantA.persist_meeting rt env f t segments tone [] [] w = (o, w') →
  appends unlabelled_event w w'
  ∧ ∃ rows, EvInsert "meetings" rows ∈ trace w'.
Proof.
  intros H. split; [| eexists; eapply persist_meeting_inserts, H].
  revert H. unfold VariantA.persist_meeting. unfold_monad.
  change (bool_decide (0 < length (@nil value))) with false.
  repeat step; intros H; pair_eq H;
    appended ltac:(first
      [ left; eexists; reflexivity
      | right; eexists; split; [reflexivity |]; eapply unlabelled_rows; left; eassumption ]).
Qed.

Lemma persist_dependents_unlabelled rt env fixedPath meetingId segments w o w' :
  VariantB.persist_dependents rt env fixedPath meetingId segments [] [] w = (o, w') →
  appends unlabelled_event w w'.
Proof.
  unfold VariantB.persist_dependents. unfold_monad.
  change (bool_decide (0 < length (@nil value))) with false.
  repeat step; intros H; pair_eq H;
    appended ltac:(right; eexists; split; [reflexivity |];
                   eapply unlabelled_rows; right; eassumption).
Qed.

(** The segment-tone stage throws only before its call, when the call
    answers. *)
Lemma segment_tone_thrown rt env segments c w e w' :
  chat_answer env SegmentTone = Returns c →
  (VariantA.segment_tone rt env segments w = (Thrown e, w') → w' = w)
  ∧ (VariantB.segment_tone rt env segments w = (Thrown e, w') → w' = w).
Proof.
  intros Hc. unfold VariantA.segment_tone, VariantB.segment_tone. unfold_monad.
  rewrite Hc. split; repeat step; intros H; pair_eq H; reflexivity.
Qed.

Ltac unlabelled_facts Hc Hbad :=
  repeat match goal with
    | H : VariantA.segment_tone _ _ _ _ = (Ok ?a, _) |- _ =>
        pose proof (proj1 (segment_tone_unparsable _ _ _ _ _ _ _ Hc Hbad) H); subst a;
        apply segment_tone_A_appends in H; destruct H as [? H]
    | H : VariantB.segment_tone _ _ _ _ = (Ok ?a, _) |- _ =>
        pose proof (proj2 (segment_tone_unparsable _ _ _ _ _ _ _ Hc Hbad) H); subst a;
        apply segment_tone_B_appends in H; destruct H as [? H]
    | H : VariantA.segment_tone _ _ _ _ = (Thrown _, _) |- _ =>
        apply (proj1 (segment_tone_thrown _ _ _ _ _ _ _ Hc)) in H; subst
    | H : VariantB.segment_tone _ _ _ _ = (Thrown _, _) |- _ =>
        apply (proj2 (segment_tone_thrown _ _ _ _ _ _ _ Hc)) in H; subst
    end;
  cbn [fst snd] in *;
  repeat match goal with
    | H : VariantA.persist_meeting _ _ _ _ _ _ [] [] _ = (_, _) |- _ =>
        apply persist_meeting_unlabelled in H; destruct H as [H [? ?]]
    | H : VariantB.persist_dependents _ _ _ _ _ [] [] _ = (_, _) |- _ =>
        apply persist_dependents_unlabelled in H
    end.

(** The four parts of [goes_on_unlabelled], from the facts of the stages. *)
Ltac unlabelled_parts :=
  unfold unlabelled_event in *;
  repeat split;
  [ intros table rows Htable Hin; chase Hin; kinds Hin;
    first [ assumption | discriminate Hin
          | repeat (apply elem_of_cons in Htable as [Htable | Htable]; [subst |]);
            [.. | apply elem_of_nil in Htable; contradiction];
            discriminate Hin ]
  | intros rows Hin; chase Hin; kinds Hin;
    first [ left; assumption | discriminate Hin
          | right; injection Hin as ->; eexists; split; [reflexivity | assumption] ]
  | intros resp Hresp Hst;
    first [ discriminate Hresp
          | injection Hresp as <-; first [discriminate Hst | reflexivity] ]
  | intros model Hin; chase Hin; kinds Hin;
    first [ left; assumption | discriminate Hin
          | right; eexists; kept ] ].

Lemma unlabelled_A rt env f b w c :
  chat_answer env SegmentTone = Returns c →
  unparsable rt c →
  goes_on_unlabelled (VariantA.transcribe rt env {| file := Some f; body := b |} w) w.
Proof.
  intros Hc Hbad.
  unfold goes_on_unlabelled, VariantA.transcribe, VariantA.pipeline; cbn [file]; cbv zeta.
  unfold_monad. repeat step.
  all: unlabelled_facts Hc Hbad.
  all: stage_facts.
  all: unlabelled_parts.
Qed.

Lemma unlabelled_B rt env f b w c :
  chat_answer env SegmentTone = Returns c →
  unparsable rt c →
  nullish b = false →
  goes_on_unlabelled (VariantB.transcribe rt env {| file := Some f; body := b |} w) w.
Proof.
  intros Hc Hbad Hb.
  unfold goes_on_unlabelled, VariantB.transcribe, VariantB.pipeline; cbn [file body]; cbv zeta.
  unfold get. rewrite Hb. unfold_monad. repeat step.
  all: unlabelled_facts Hc Hbad.
  all: stage_facts.
  all: unlabelled_parts.
Qed.

(** A segment analysis that does not parse is absorbed: when the
    segment-tone call answers a completion whose content is not JSON, the first
    and the second version (the request having its form fields) write no
    per-segment emotion, write their [transcripts] rows with null [emotion] and
    [emotion_score], answer a 200 with an empty [emotion.segmentEmotions], and
    go on from the call to the [meetings] insert. *)
Theorem segment_parse_failure_absorbed rt env f b w c :
  chat_answer env SegmentTone = Returns c →
  unparsable rt c →
  nullish b = false →
  let req := {| file := Some f; body := b |} in
  goes_on_unlabelled (VariantA.transcribe rt env req w) w
  ∧ goes_on_unlabelled (VariantB.transcribe rt env req w) w.
Proof.
  intros Hc Hbad Hb req. split.
  - apply (unlabelled_A rt env f b w c Hc Hbad).
  - apply (unlabelled_B rt env f b w c Hc Hbad Hb).
Qed.

(** The segment analyzer of the example answers a sentence: the second
    version answers 200 having written the meeting and an unlabelled
    transcript row. *)
Lemma segment_parse_failure_absorbed_witness :
  let env := Sample.outside (Returns Sample.transcription)
               (Returns (Sample.completion Sample.tone_text))
               (Returns (Sample.completion "Sorry, I cannot classify these"))
               (Returns (Sample.completion Sample.summary_text)) Sample.inserted in
  let run := VariantB.transcribe Sample.node env Sample.request Sample.world in
  goes_on_unlabelled run Sample.world
  ∧ (∃ resp, run.1 = Ok resp ∧ status resp = 200)
  ∧ EvInsert "transcripts"
      (VArr [VObj [("meeting_id", VStr "m-1"); ("start_time", VStr "0");
                   ("end_time", VStr "12.5"); ("transcript_text", VStr "Hello team");
                   ("speaker", VStr "Unknown"); ("emotion", VNull);
                   ("emotion_score", VNull)]])
    ∈ trace run.2.
Proof.
  intros env run. subst run. unfold Sample.request. split; [| split].
  - apply (segment_parse_failure_absorbed Sample.node env Sample.upload Sample.fields
             Sample.world (Sample.completion "Sorry, I cannot classify these")).
    + reflexivity.
    + eexists. vm_compute. reflexivity.
    + reflexivity.
  - eexists. split; [vm_compute; reflexivity | reflexivity].
  - evaluate (trace (VariantB.transcribe Sample.node env
                       {| file := Some Sample.upload; body := Sample.fields |}
                       Sample.world).2) Htrace.
    rewrite Htrace. listed.
Defined.

(** ** The later inserts report errors *)

(** A map over the segments that reads [start], [end] and [text] goes
    through exactly when no segment is null or undefined. *)
Lemma segmentPayload_segments rt segments :
  ∀ i payload, map_indexed (payload_entry rt) i segments = Ok payload →
               Forall (λ s, nullish s = false) segments.
Proof.
  induction segments as [| s segments IH]; intros i payload H; cbn in H; [constructor |].
  destruct (payload_entry rt i s) as [y |] eqn:Hy; cbn in H; [| discriminate H].
  destruct (map_indexed (payload_entry rt) (S i) segments) eqn:E; cbn in H; [| discriminate H].
  constructor; [| eapply IH, E].
  unfold payload_entry, get in Hy. destruct (nullish s); [discriminate Hy | reflexivity].
Qed.

Lemma segment_tone_segments rt env segments w collected w' :
  (VariantA.segment_tone rt env segments w = (Ok collected, w')
   ∨ VariantB.segment_tone rt env segments w = (Ok collected, w')) →
  Forall (λ s, nullish s = false) segments.
Proof.
  unfold VariantA.segment_tone, VariantB.segment_tone, segmentPayload. unfold_monad.
  intros [H | H]; revert H; repeat step; intros H; pair_eq H;
    first [ eapply segmentPayload_segments; eassumption
          | destruct segments; [constructor | discriminate] ].
Qed.

Lemma transcript_rows_exist rt meetingId emap segments :
  Forall (λ s, nullish s = false) segments →
  ∀ i, (∃ rows, map_indexed (VariantA.transcript_row rt meetingId emap) i segments = Ok rows)
       ∧ (∃ rows, map_indexed (VariantB.transcript_row rt meetingId emap) i segments = Ok rows).
Proof.
  induction 1 as [| s segments Hs _ IH]; intros i; cbn [map_indexed].
  - split; eexists; reflexivity.
  - destruct (IH (S i)) as [[rowsA ->] [rowsB ->]].
    assert (HA : ∃ y, VariantA.transcript_row rt meetingId emap i s = Ok y)
      by (unfold VariantA.transcript_row, get; rewrite Hs; eexists; reflexivity).
    assert (HB : ∃ y, VariantB.transcript_row rt meetingId emap i s = Ok y)
      by (unfold VariantB.transcript_row, get; rewrite Hs; eexists; reflexivity).
    destruct HA as [a ->], HB as [b ->]. split; eexists; reflexivity.
Qed.

Lemma truthy_not_nullish (v : value) : truthy v = true → nullish v = false.
Proof. destruct v; simpl; congruence. Qed.

(** Stages 4 to 6 of the first version hand over the identifier whatever
    the [transcripts] and [emotions] inserts report. *)
Lemma persist_meeting_succeeds rt env f t segments tone emap rowsDB w answer :
  Forall (λ s, nullish s = false) segments →
  insert_answer env "meetings" (VariantA.meeting_row rt env f t tone) = Returns answer →
  meeting_stored answer →
  dependents_answer (λ v, nullish v = false) env →
  ∃ w', VariantA.persist_meeting rt env f t segments tone emap rowsDB w
        = (Ok (stored_id answer), w')
        ∧ files w' = files w.
Proof.
  intros Hsegs Hm (Hanswer & Herror & Hdata) Hdep.
  unfold VariantA.persist_meeting, get, stored_id. unfold_monad.
  rewrite Hm, Hanswer. tidy. rewrite Herror, (truthy_not_nullish _ Hdata). tidy.
  destruct (proj1 (transcript_rows_exist rt (prop (prop answer "data") "id") emap
                     segments Hsegs 0)) as [rows ->].
  destruct (Hdep "transcripts" (VArr rows)) as (v & -> & ->); [discriminate |].
  destruct (Hdep "emotions"
              (VArr (VariantA.emotion_row (prop (prop answer "data") "id") <$> rowsDB)))
    as (v' & Hv' & Hn'); [discriminate |].
  destruct (bool_decide (0 < length segments)); tidy;
    destruct (bool_decide (0 < length rowsDB)); tidy;
    rewrite ?Hv'; tidy; rewrite ?Hn'; tidy;
    eexists; split; reflexivity.
Qed.

(** Stages 5 to 7 of the second version go through whatever the
    [transcripts] and [emotion_segments] inserts answer. *)
Lemma persist_dependents_succeeds rt env fixedPath meetingId segments emap rows w :
  Forall (λ s, nullish s = false) segments →
  dependents_answer (λ _, True) env →
  ∃ w', VariantB.persist_dependents rt env fixedPath meetingId segments emap rows w
        = (Ok (), w')
        ∧ files w' = files w ∖ {[ fixedPath ]}.
Proof.
  intros Hsegs Hdep.
  unfold VariantB.persist_dependents. unfold_monad.
  destruct (proj2 (transcript_rows_exist rt meetingId emap segments Hsegs 0)) as [l ->].
  destruct (Hdep "transcripts" (VArr l)) as (v & -> & _); [discriminate |].
  destruct (Hdep "emotion_segments" (VArr (VariantB.with_meeting_id meetingId <$> rows)))
    as (v' & Hv' & _); [discriminate |].
  destruct (bool_decide (0 < length segments)); tidy;
    destruct (bool_decide (0 < length rows)); tidy;
    rewrite ?Hv'; tidy; eexists; split; reflexivity.
Qed.

(** In the second version the answers of the [transcripts] and
    [emotion_segments] inserts are never read: once the tone stages are through
    and the [meetings] insert has answered a row and no error, the request is
    answered 200 with the identifier of that row, whatever the later inserts
    answer -- an error included -- as long as they come back; the upload is
    removed. *)
Theorem second_version_ignores_insert_answers
  rt env f b w t analysis w2 collected w3 answer :
  replace_backslashes (path f) ∈ files w →
  transcription_answer env = Returns t →
  nullish t = false →
  overall_tone rt env "llama-3.3-70b-versatile" (transcriptText t)
    {| files := files w; trace := trace w ++ [EvTranscribe "whisper-large-v3-turbo"] |}
  = (Ok analysis, w2) →
  VariantB.segment_tone rt env (segments_of t) w2 = (Ok collected, w3) →
  nullish b = false →
  insert_answer env "meetings"
    (VArr [VariantB.meeting_row rt (prop b "title") (prop b "meeting_type") t
             (transcriptText t) analysis])
  = Returns answer →
  meeting_stored answer →
  dependents_answer (λ _, True) env →
  let run := VariantB.transcribe rt env {| file := Some f; body := b |} w in
  run.1 = Ok (res_json
                (VObj [("meetingId", stored_id answer);
                       ("transcript", transcriptText t);
                       ("segments", VArr (segments_of t));
                       ("words", prop t "words");
                       ("emotion",
                        VObj [("moodScore", moodScore analysis);
                              ("dominantEmotion", dominantEmotion analysis);
                              ("emotionBreakdown", emotionBreakdown analysis);
                              ("segmentEmotions", VArr collected.2)])]))
  ∧ replace_backslashes (path f) ∉ files run.2.
Proof.
  intros Hfile Ht Hnull Htone Hseg Hb Hm (Hanswer & Herror & Hdata) Hdep run. subst run.
  unfold VariantB.transcribe, VariantB.pipeline.
  enter Hfile Ht Hnull. rewrite Htone, Hseg, Hb. tidy.
  rewrite Hm, Hanswer. tidy. rewrite Herror, Hdata. cbn [orb negb].
  pose proof (segment_tone_segments _ _ _ _ _ _ (or_intror Hseg)) as Hsegs.
  edestruct (persist_dependents_succeeds rt env (replace_backslashes (path f))
               (prop (prop answer "data") "id") (segments_of t) collected.1 collected.2)
    as (w' & -> & Hfiles); [exact Hsegs | exact Hdep |].
  tidy. split; [reflexivity |]. rewrite Hfiles. apply removed.
Qed.

(** The datastore reports an error on every insert but the [meetings] one. *)
Lemma second_version_ignores_insert_answers_witness :
  let env := {| transcription_answer := Returns Sample.transcription;
                chat_answer := chat_answer Sample.healthy;
                insert_answer := λ table _,
                  if String.eqb table "meetings" then Sample.inserted else Sample.refused;
                now_iso := now_iso Sample.healthy |} in
  let run := VariantB.transcribe Sample.node env Sample.request Sample.world in
  (∃ resp, run.1 = Ok resp
           ∧ status resp = 200
           ∧ prop (json resp) "meetingId" = VStr "m-1")
  ∧ replace_backslashes (path Sample.upload) ∉ files run.2.
Proof.
  intros env run. subst run. unfold Sample.request.
  edestruct (second_version_ignores_insert_answers Sample.node env Sample.upload
               Sample.fields Sample.world Sample.transcription) as [Hresp Hfiles].
  1: stored.
  1, 2: reflexivity.
  1, 2: evaluated.
  1: reflexivity.
  1: evaluated.
  1: repeat split; reflexivity.
  1: { intros table rows Hne. cbn.
       destruct (String.eqb table "meetings") eqn:E;
         [apply String.eqb_eq in E; contradiction | eexists; split; [reflexivity | exact I]]. }
  split; [| exact Hfiles].
  eexists. split; [exact Hresp |]. split; reflexivity.
Defined.

Lemma task_rows_exist rt meetingId items :
  Forall (λ t, nullish t = false) items →
  ∀ i, ∃ rows, map_indexed (λ _, VariantA.task_row rt meetingId) i items = Ok rows.
Proof.
  induction 1 as [| t items Ht _ IH]; intros i; cbn [map_indexed].
  - eexists; reflexivity.
  - destruct (IH (S i)) as [rows ->].
    assert (H : ∃ y, VariantA.task_row rt meetingId t = Ok y)
      by (unfold VariantA.task_row, get; rewrite Ht; eexists; reflexivity).
    destruct H as [y ->]. eexists; reflexivity.
Qed.

(** Stages 7 to 9 of the first version hand over the summary and the tasks
    whatever the [summaries] and [tasks] inserts report. *)
Lemma summarise_succeeds rt env meetingId w c content items :
  chat_answer env SummaryTasks = Returns c →
  content_of rt c = Ok content →
  nullish (analysis_of rt content) = false →
  js_or (opt_prop (prop (analysis_of rt content) "tasks") "items") (VArr []) = VArr items →
  Forall (λ t, nullish t = false) items →
  dependents_answer (λ v, nullish v = false) env →
  ∃ w', VariantA.summarise rt env meetingId w
        = (Ok (js_or (prop (analysis_of rt content) "summary") VariantA.empty_summary,
               VArr items), w')
        ∧ files w' = files w.
Proof.
  intros Hc Hcontent Hanalysis Htasks Hitems Hdep.
  unfold VariantA.summarise, get. unfold_monad. rewrite Hc. tidy. rewrite Hcontent. tidy.
  fold (analysis_of rt content). rewrite Hanalysis, Htasks. tidy.
  match goal with
  | |- context [insert_answer env "summaries" ?row] =>
      destruct (Hdep "summaries" row) as (v & -> & ->); [discriminate |]
  end.
  tidy. destruct (task_rows_exist rt meetingId items Hitems 0) as [rows ->].
  destruct (Hdep "tasks" (VArr rows)) as (v' & Hv' & Hn'); [discriminate |].
  destruct (truthy _); tidy; rewrite ?Hv'; tidy; rewrite ?Hn'; tidy;
    eexists; split; reflexivity.
Qed.

(** In the first version the errors that the [transcripts], [emotions],
    [summaries] and [tasks] inserts report are logged and nothing more: once the
    tone stages are through, the [meetings] insert has answered a row and no
    error and the summary call has answered a completion with a content, the
    request is answered 200 with the identifier of that row, the summary and the
    tasks, whatever errors the later inserts report, as long as they answer an
    object; the upload is removed. *)
Theorem first_version_logs_insert_errors
  rt env f b w t tone w2 collected w3 answer c content items :
  replace_backslashes (path f) ∈ files w →
  transcription_answer env = Returns t →
  nullish t = false →
  overall_tone rt env "llama-3.1-70b-versatile" (transcriptText t)
    {| files := files w; trace := trace w ++ [EvTranscribe "whisper-large-v3-turbo"] |}
  = (Ok tone, w2) →
  VariantA.segment_tone rt env (segments_of t) w2 = (Ok collected, w3) →
  insert_answer env "meetings" (VariantA.meeting_row rt env f t tone) = Returns answer →
  meeting_stored answer →
  dependents_answer (λ v, nullish v = false) env →
  chat_answer env SummaryTasks = Returns c →
  content_of rt c = Ok content →
  nullish (analysis_of rt content) = false →
  js_or (opt_prop (prop (analysis_of rt content) "tasks") "items") (VArr []) = VArr items →
  Forall (λ t, nullish t = false) items →
  let run := VariantA.transcribe rt env {| file := Some f; body := b |} w in
  run.1 = Ok (res_json
                (VObj [("meetingId", stored_id answer);
                       ("transcript", transcriptText t);
                       ("segments", VArr (segments_of t));
                       ("words", prop t "words");
                       ("summary",
                        js_or (prop (analysis_of rt content) "summary") VariantA.empty_summary);
                       ("tasks", VArr items);
                       ("emotion",
                        VObj [("moodScore", moodScore tone);
                              ("dominantEmotion", dominantEmotion tone);
                              ("emotionBreakdown", emotionBreakdown tone);
                              ("segmentEmotions", VArr collected.2)])]))
  ∧ replace_backslashes (path f) ∉ files run.2.
Proof.
  intros Hfile Ht Hnull Htone Hseg Hm Hstored Hdep Hc Hcontent Hanalysis Htasks Hitems run.
  subst run. unfold VariantA.transcribe, VariantA.pipeline.
  enter Hfile Ht Hnull. rewrite Htone, Hseg. tidy.
  pose proof (segment_tone_segments _ _ _ _ _ _ (or_introl Hseg)) as Hsegs.
  edestruct (persist_meeting_succeeds rt env f t (segments_of t) tone collected.1 collected.2)
    as (w4 & -> & _); [exact Hsegs | exact Hm | exact Hstored | exact Hdep |].
  tidy.
  edestruct (summarise_succeeds rt env (stored_id answer) w4)
    as (w5 & -> & _);
    [exact Hc | exact Hcontent | exact Hanalysis | exact Htasks | exact Hitems | exact Hdep |].
  tidy. split; [reflexivity | apply removed].
Qed.

(** The datastore reports an error on every insert but the [meetings] one. *)
Lemma first_version_logs_insert_errors_witness :
  let env := {| transcription_answer := Returns Sample.transcription;
                chat_answer := chat_answer Sample.healthy;
                insert_answer := λ table _,
                  if String.eqb table "meetings" then Sample.inserted else Sample.refused;
                now_iso := now_iso Sample.healthy |} in
  let run := VariantA.transcribe Sample.node env Sample.request Sample.world in
  (∃ resp, run.1 = Ok resp
           ∧ status resp = 200
           ∧ prop (json resp) "meetingId" = VStr "m-1"
           ∧ prop (json resp) "tasks" = VArr [])
  ∧ replace_backslashes (path Sample.upload) ∉ files run.2.
Proof.
  intros env run. subst run. unfold Sample.request.
  edestruct (first_version_logs_insert_errors Sample.node env Sample.upload
               Sample.fields Sample.world Sample.transcription) as [Hresp Hfiles].
  1: stored.
  1, 2: reflexivity.
  1, 2: evaluated.
  1: evaluated.
  1: repeat split; reflexivity.
  1: { intros table rows Hne. cbn.
       destruct (String.eqb table "meetings") eqn:E;
         [apply String.eqb_eq in E; contradiction | eexists; split; reflexivity]. }
  1: reflexivity.
  1: evaluated.
  1: reflexivity.
  1: evaluated.
  1: constructor.
  split; [| exact Hfiles].
  eexists. split; [exact Hresp |]. repeat split; reflexivity.
Defined.

(** ** The upload, in the version of part_000 *)

(** The version of part_000 ends every request that has a file in its
    [catch] block, which asks for the removal of the upload: after the run the
    path of the upload names no file of the temporary store. *)
Theorem part_000_removes_upload rt env f b w :
  path f ≠ "" →
  path f ∉ files (VariantC.transcribe rt env {| file := Some f; body := b |} w).2.
Proof.
  intros Hpath.
  unfold VariantC.transcribe, VariantC.pipeline, VariantC.undeclared; cbn [file]; cbv zeta.
  unfold_monad. repeat step.
  all: stage_facts; same_files.
  all: try no_path.
  all: apply removed.
Qed.

(** With every call answering well, the upload of the example is removed. *)
Lemma part_000_removes_upload_witness :
  path Sample.upload
    ∉ files (VariantC.transcribe Sample.node Sample.healthy Sample.request Sample.world).2.
Proof.
  apply (part_000_removes_upload Sample.node Sample.healthy Sample.upload Sample.fields
           Sample.world).
  discriminate.
Defined.

(** ** Summary and task rows *)

Lemma listed_or_empty (v : value) : truthy (js_or v (VArr [])) = true.
Proof. unfold js_or. destruct (truthy v) eqn:E; [exact E | reflexivity]. Qed.

Lemma task_rows_defaults rt meetingId items rows :
  truthy (prop (VArr items) "length") = true →
  map_indexed (λ _, VariantA.task_row rt meetingId) 0 items = Ok rows →
  rows ≠ [] ∧ Forall task_defaults rows.
Proof.
  intros Hlen H. split.
  - apply map_indexed_length in H. destruct rows; [| discriminate].
    destruct items; [discriminate Hlen | discriminate H].
  - eapply map_indexed_Forall; [| exact H]. cbn.
    intros i x y. unfold VariantA.task_row, get.
    destruct (nullish x); cbn; intros Hy; [discriminate Hy |].
    injection Hy as <-. split; [| reflexivity]. cbn.
    unfold js_or. destruct (truthy (prop x "dueDate")) eqn:E; [| reflexivity].
    apply truthy_not_nullish, E.
Qed.

Lemma summarise_rows rt env meetingId w o w' :
  VariantA.summarise rt env meetingId w = (o, w') → appends summary_rows_event w w'.
Proof.
  unfold VariantA.summarise. unfold_monad.
  repeat step; intros H; pair_eq H.
  all: appended ltac:(split; intros ? Heq; first
    [ discriminate Heq
    | injection Heq as <-; repeat split; apply listed_or_empty
    | injection Heq as <-;
      match goal with
      | Hlen : truthy _ = true, Hrows : map_indexed _ 0 _ = Ok _ |- _ =>
          destruct (task_rows_defaults _ _ _ _ Hlen Hrows);
          eexists; split; [reflexivity | split; assumption]
      end ]).
Qed.

(** In the first version the row given to the [summaries] insert always has
    its four lists (an empty list stands in for a missing one), and the
    [tasks] insert is made only with at least one row, each with a due date
    that is not null (the empty string stands in) and a null
    [notion_sync_status]. *)
Theorem summary_and_task_rows_are_defaulted rt env f b w :
  summary_rows (VariantA.transcribe rt env {| file := Some f; body := b |} w) w.
Proof.
  unfold summary_rows, VariantA.transcribe, VariantA.pipeline; cbn [file]; cbv zeta.
  unfold_monad. repeat step.
  all: repeat match goal with
      | H : VariantA.summarise _ _ _ _ = (_, _) |- _ => apply summarise_rows in H
      end.
  all: stage_facts.
  all: split; intros rows Hin; chase Hin; kinds Hin;
    first [ left; assumption | discriminate Hin
          | right; apply Hin; reflexivity
          | right; apply (proj1 Hin); reflexivity
          | right; apply (proj2 Hin); reflexivity ].
Qed.

(** ** The scores of the second version *)

(** What [forEach] leaves keeps what every step keeps. *)
Lemma forEach_caught_invariant {S : Type} (step : value → S → Outcome S) (I : S → Prop)
  (l : list value) :
  (∀ x acc acc', I acc → step x acc = Ok acc' → I acc') →
  ∀ acc, I acc → I (forEach_caught step l acc).
Proof.
  intros Hstep. induction l as [| x l IH]; intros acc Hacc; cbn; [exact Hacc |].
  destruct (step x acc) as [acc' |] eqn:E; [| exact Hacc].
  apply IH. eapply Hstep; eassumption.
Qed.

Lemma collect_segments_B_scored rt payload seg :
  Forall scored (VariantB.collect_segments rt payload seg).2.
Proof.
  unfold VariantB.collect_segments.
  destruct (content ← content_of rt seg; parsed ← json_parse rt content;
            get rt parsed "segments") as [found |]; [| constructor].
  destruct (js_or found (VArr [])) as [| | | | | arr |]; try constructor.
  apply (forEach_caught_invariant _ (λ acc, Forall scored acc.2)); [| constructor].
  intros s [m rows] acc' Hrows. unfold VariantB.collect_entry, get.
  destruct (nullish s); cbn; intros H; [discriminate H |]. injection H as <-. cbn.
  apply Forall_app. split; [exact Hrows |]. repeat constructor.
  eexists. split; [reflexivity |]. cbn. split.
  - destruct (typeof_number (prop s "score")) eqn:E; [exact E | reflexivity].
  - apply emotion_defaulted.
Qed.

Lemma segment_tone_B_scored rt env segments w collected w' :
  VariantB.segment_tone rt env segments w = (Ok collected, w') → Forall scored collected.2.
Proof.
  unfold VariantB.segment_tone. unfold_monad.
  repeat step; intros H; pair_eq H;
    first [apply collect_segments_B_scored | constructor].
Qed.

Lemma assoc_set_field_other k k' v fields :
  k ≠ k' → assoc k (set_field k' v fields) = assoc k fields.
Proof.
  intros Hk. induction fields as [| [k0 v0] fields IH]; cbn.
  - destruct (String.eqb k k') eqn:E; [apply String.eqb_eq in E; contradiction | reflexivity].
  - destruct (String.eqb k' k0) eqn:E0; cbn.
    + apply String.eqb_eq in E0 as <-.
      destruct (String.eqb k k') eqn:E; [apply String.eqb_eq in E; contradiction | reflexivity].
    + rewrite IH. reflexivity.
Qed.

Lemma with_meeting_id_scored meetingId rows :
  Forall scored rows →
  Forall (λ row, typeof_number (prop row "score") = true ∧ truthy (prop row "emotion") = true)
    (VariantB.with_meeting_id meetingId <$> rows).
Proof.
  intros H. apply Forall_fmap. eapply Forall_impl; [exact H |].
  intros row (fields & -> & Hs & He). cbn.
  rewrite !assoc_set_field_other by discriminate. split; assumption.
Qed.

Lemma persist_dependents_emotions rt env fixedPath meetingId segments emap rows w o w' :
  VariantB.persist_dependents rt env fixedPath meetingId segments emap rows w = (o, w') →
  appends (λ ev, ∀ given, ev = EvInsert "emotion_segments" given →
                          given = VArr (VariantB.with_meeting_id meetingId <$> rows)) w w'.
Proof.
  unfold VariantB.persist_dependents. unfold_monad.
  repeat step; intros H; pair_eq H;
    appended ltac:(intros ? Heq; first [discriminate Heq | injection Heq as <-; reflexivity]).
Qed.

(** What the second version does guarantee of the rows it writes to
    [emotion_segments]: each has a score that is a number (the analyzer's own
    when it is one, whatever its range, 0.5 otherwise) and an emotion that is
    not empty ("neutral" stands in for a missing one). *)
Theorem second_version_scores_are_numbers rt env f b w :
  emotion_segments_scored (VariantB.transcribe rt env {| file := Some f; body := b |} w) w.
Proof.
  unfold emotion_segments_scored, VariantB.transcribe, VariantB.pipeline;
    cbn [file]; cbv zeta.
  unfold_monad. repeat step.
  all: repeat match goal with
      | H : VariantB.segment_tone _ _ _ _ = (Ok _, _) |- _ =>
          let Hs := fresh "Hscored" in
          pose proof (segment_tone_B_scored _ _ _ _ _ _ H) as Hs;
          apply segment_tone_B_appends in H; destruct H as [? H]
      end.
  all: repeat match goal with
      | H : VariantB.persist_dependents _ _ _ _ _ _ _ _ = (_, _) |- _ =>
          apply persist_dependents_emotions in H
      end.
  all: stage_facts.
  all: intros rows Hin; chase Hin; kinds Hin;
    first [ left; assumption | discriminate Hin
          | right; rewrite (Hin rows eq_refl); eexists; split; [reflexivity |];
            apply with_meeting_id_scored; assumption ].
Qed.

(** The analyzer of the example scores the only segment 1.5: the row the
    second version writes has that number for score, and its emotion. *)
Lemma second_version_scores_are_numbers_witness :
  Forall (λ row, typeof_number (prop row "score") = true ∧ truthy (prop row "emotion") = true)
    [VObj [("meeting_id", VStr "m-1"); ("segment_index", VNum 0);
           ("start_time", VNum 0); ("end_time", VNum 12.5);
           ("emotion", VStr "happy"); ("score", VNum 1.5)]].
Proof.
  edestruct (second_version_scores_are_numbers Sample.node Sample.score_out_of_range
               Sample.upload Sample.fields Sample.world) as [Hbefore | (l & Hl & Hrows)].
  - evaluate (trace (VariantB.transcribe Sample.node Sample.score_out_of_range
                       {| file := Some Sample.upload; body := Sample.fields |}
                       Sample.world).2) Htrace.
    rewrite Htrace. listed.
  - inversion Hbefore.
  - injection Hl as <-. exact Hrows.
Defined.

(** ** What a 200 answer tells *)

(** A 200 answer tells what was stored: in both versions its [meetingId] is
    the identifier the datastore answered to the [meetings] insert of the
    same run; in the first version the three tone fields of the answer are
    those of the row inserted; in the second the transcript, the dominant
    emotion and the emotion breakdown are. *)
Theorem success_answers_what_was_stored rt env f b w :
  let req := {| file := Some f; body := b |} in
  answers_what_it_stored same_tone env (VariantA.transcribe rt env req w)
  ∧ answers_what_it_stored same_transcript env (VariantB.transcribe rt env req w).
Proof.
  unfold answers_what_it_stored. split.
  - unfold VariantA.transcribe, VariantA.pipeline; cbn [file]; cbv zeta.
    unfold_monad. repeat step.
    all: intros resp Hresp Hst; first [discriminate Hresp | injection Hresp as <-];
      try discriminate Hst.
    all: reference_facts; stage_facts.
    all: repeat match goal with
        | H : ∀ id, Ok ?a = Ok id → _ |- _ =>
            destruct (H a eq_refl) as (? & ? & ->); clear H
        end.
    all: eexists _, _; split; [kept | split; [eassumption |]];
      repeat split; reflexivity.
  - unfold VariantB.transcribe, VariantB.pipeline; cbn [file]; cbv zeta.
    unfold get. unfold_monad. repeat step.
    all: intros resp Hresp Hst; first [discriminate Hresp | injection Hresp as <-];
      try discriminate Hst.
    all: reference_facts; stage_facts.
    all: eexists _, _; split; [kept | split; [eassumption |]];
      repeat split; reflexivity.
Qed.

(** With every call answering well, the first version answers the
    identifier "m-1" and the mood score 0.75 it stored. *)
Lemma success_answers_what_was_stored_witness :
  ∃ rows answer,
    EvInsert "meetings" rows
      ∈ trace (VariantA.transcribe Sample.node Sample.healthy Sample.request Sample.world).2
    ∧ insert_answer Sample.healthy "meetings" rows = Returns answer
    ∧ stored_id answer = VStr "m-1"
    ∧ prop (inserted_row rows) "mood_score" = VNum 0.75.
Proof.
  unfold Sample.request.
  destruct (success_answers_what_was_stored Sample.node Sample.healthy Sample.upload
              Sample.fields Sample.world) as [HA _].
  evaluate ((VariantA.transcribe Sample.node Sample.healthy
               {| file := Some Sample.upload; body := Sample.fields |} Sample.world).1) Hrun.
  destruct (HA _ Hrun eq_refl) as (rows & answer & Hin & Hanswer & Hid & Htone & _).
  exists rows, answer. split; [exact Hin |]. split; [exact Hanswer |]. split.
  - rewrite <- Hid. reflexivity.
  - rewrite Htone. reflexivity.
Defined.

(** ** A completion without content *)

(** A completion without content is read as the empty object: the text
    "{}" stands in for the content, so that -- [JSON.parse] reading "{}" as the
    empty object -- the overall tone is three nulls, no segment label is
    collected by either version, and the summary and the tasks are the empty
    ones. *)
Theorem completion_without_content_is_empty rt completion payload :
  JSON_parse rt "{}" = Some (VObj []) →
  no_content rt completion →
  content_of rt completion = Ok (VStr "{}")
  ∧ parse_overall rt completion = Ok null_tone
  ∧ VariantA.collect_segments rt payload completion = ([], [])
  ∧ VariantB.collect_segments rt payload completion = ([], [])
  ∧ js_or (prop (analysis_of rt (VStr "{}")) "summary") VariantA.empty_summary
    = VariantA.empty_summary
  ∧ js_or (opt_prop (prop (analysis_of rt (VStr "{}")) "tasks") "items") (VArr []) = VArr [].
Proof.
  intros Hparse (choices & first & Hchoices & Hfirst & Hcontent).
  assert (Hc : content_of rt completion = Ok (VStr "{}")).
  { unfold content_of. rewrite Hchoices. cbn. rewrite Hfirst. cbn.
    unfold js_or. rewrite Hcontent. reflexivity. }
  assert (Hj : json_parse rt (VStr "{}") = Ok (VObj [])).
  { unfold json_parse. rewrite Hparse. reflexivity. }
  split; [exact Hc |].
  unfold parse_overall, VariantA.collect_segments, VariantA.segResults,
    VariantB.collect_segments, analysis_of.
  rewrite Hc. cbn. rewrite Hj. cbn. repeat split.
Qed.

(** A completion with no choice at all, read by the runtime of the
    examples. *)
Lemma completion_without_content_is_empty_witness :
  let completion := VObj [("choices", VArr [])] in
  parse_overall Sample.node completion = Ok null_tone
  ∧ VariantA.collect_segments Sample.node [] completion = ([], [])
  ∧ VariantB.collect_segments Sample.node [] completion = ([], []).
Proof.
  intros completion.
  destruct (completion_without_content_is_empty Sample.node completion [])
    as (_ & Htone & HA & HB & _).
  - reflexivity.
  - eexists _, _. repeat split; reflexivity.
  - split; [exact Htone | split; [exact HA | exact HB]].
Defined.

(** ** Indices that are not numbers *)

Lemma last_labelled_number (x : float) (entries : list value) :
  Forall (λ s, typeof_number (prop s "index") = false) entries →
  last_labelled (VNum x) entries = None.
Proof.
  unfold last_labelled. generalize (@None value).
  induction entries as [| s entries IH]; intros found H; cbn; [reflexivity |].
  inversion H as [| ? ? Hs Hrest]; subst.
  destruct (prop s "index"); try discriminate Hs; cbn; apply IH, Hrest.
Qed.

(** A label reaches the transcript only under a numeric index: the [Map]
    is read by position, a number, and compares keys without conversion, so
    when the analyzer gives every index as something else -- a string of
    digits, say -- the row of [transcripts] of every segment has a null
    [emotion] and a null [emotion_score], in the first and in the second
    version. *)
Theorem label_needs_numeric_index rt payload completion meetingId i seg :
  nullish seg = false →
  let unnumbered := Forall (λ s, typeof_number (prop s "index") = false) in
  (unnumbered (match VariantA.segResults rt completion with
               | Ok l => heard l
               | Thrown _ => []
               end) →
   ∃ row, VariantA.transcript_row rt meetingId
            (VariantA.collect_segments rt payload completion).1 i seg = Ok row
          ∧ unlabelled row)
  ∧ (unnumbered (heard (analyzer_list rt completion)) →
     ∃ row, VariantB.transcript_row rt meetingId
              (VariantB.collect_segments rt payload completion).1 i seg = Ok row
            ∧ unlabelled row).
Proof.
  intros Hseg unnumbered. subst unnumbered. split; intros Hentries.
  - unfold VariantA.collect_segments, VariantA.transcript_row, get in *. rewrite Hseg.
    destruct (VariantA.segResults rt completion) as [l |]; cbn.
    + rewrite forEach_collect_A. cbn [fst snd].
      rewrite (map_get_last _ (VNum (js_nat i)) (heard l) [] None eq_refl).
      fold (last_labelled (VNum (js_nat i)) (heard l)).
      rewrite (last_labelled_number _ _ Hentries).
      eexists. split; [reflexivity | split; reflexivity].
    + eexists. split; [reflexivity | split; reflexivity].
  - unfold VariantB.collect_segments, analyzer_list, VariantB.transcript_row, get in *.
    rewrite Hseg.
    destruct (content ← content_of rt completion; parsed ← json_parse rt content;
              (if nullish parsed
               then Thrown (error_value rt (ReadOfNullish parsed "segments"))
               else Ok (prop parsed "segments"))) as [found |]; cbn.
    2: { eexists. split; [reflexivity | split; reflexivity]. }
    destruct (js_or found (VArr [])) as [| | | | | arr |]; cbn.
    all: try (eexists; split; [reflexivity | split; reflexivity]).
    destruct (forEach_collect_B rt payload arr ([], [])) as (rows & -> & _).
    cbn [fst snd].
    rewrite (map_get_last _ (VNum (js_nat i)) (heard arr) [] None eq_refl).
    fold (last_labelled (VNum (js_nat i)) (heard arr)).
    rewrite (last_labelled_number _ _ Hentries).
    eexists. split; [reflexivity | split; reflexivity].
Qed.

(** The analyzer gives the index of the only segment as the string "0":
    the row for [emotions] has the times of the segment, the transcript row
    has no label. *)
Lemma label_needs_numeric_index_witness :
  let answer :=
    VObj [("segments",
           VArr [VObj [("index", VStr "0"); ("emotion", VStr "happy"); ("score", VNum 0.5)]])] in
  let rt := {| JSON_parse := λ _, Some answer;
               String_of := Sample.text_of;
               StringToNumber := StringToNumber Sample.node;
               Math_round := Sample.round;
               error_value := Sample.thrown |} in
  let payload := [VObj [("index", VNum 0); ("start", VNum 0); ("end", VNum 12.5);
                        ("text", VStr "Hello team")]] in
  let collected := VariantA.collect_segments rt payload (Sample.completion "...") in
  collected.2 = [VObj [("segment_index", VStr "0"); ("start", VNum 0); ("end", VNum 12.5);
                       ("emotion", VStr "happy"); ("score", VNum 0.5)]]
  ∧ ∃ row, VariantA.transcript_row rt (VStr "m-1") collected.1 0 Sample.segment = Ok row
           ∧ unlabelled row.
Proof.
  intros answer rt payload collected. split; [reflexivity |].
  destruct (label_needs_numeric_index rt payload (Sample.completion "...") (VStr "m-1") 0
              Sample.segment eq_refl) as [HA _].
  apply HA. repeat constructor.
Defined.
